(** * Async resource hooks and REST client: a shallow embedding

    This development models the client-side data layer of the repository:

    - [useApiCall] (the Call Controller), [useApiPolling] (the Poller) and
      [useInfiniteScroll] (the Paginator), the three React hooks of the
      hook file;
    - [apiRequest], the REST client of [utils/api.js].

    React state is a record; a call of a hook callback is a function from
    the state before the call to the state after it, together with the way
    the returned promise settles.  A callback reads the state variables of
    the render that created it (its snapshot) and writes through setters,
    so where the source reads a state variable the model reads the
    snapshot, and where it calls a setter the model updates the current
    state.  Refs ([cacheRef], [timerRef]) are shared mutable cells and are
    always read from the current state.  Every model keeps a log of the
    effects performed, which is how "the operation was not invoked" or
    "loading was never set" are stated.

    Numbers are integers ([Z]): timestamps, page numbers, lengths and
    counts are.  Calls on one hook instance do not overlap (the caller's
    duty according to the design), so a call runs from its start to the
    settlement of its promise without interleaving, except in the Poller
    where the start of an invocation and its settlement are two steps. *)

From Stdlib Require Import ZArith List String Bool Lia DecimalString.
Import ListNotations.

Set Warnings "-register-all".

Local Open Scope string_scope.
Local Open Scope list_scope.
Local Open Scope Z_scope.

(** ** JavaScript values *)

Module Js.

Inductive JsVal : Type :=
| JUndefined
| JNull
| JBool (b : bool)
| JNum (n : Z)
| JStr (s : string)
| JArr (elems : list JsVal)
| JObj (fields : list (string * JsVal))
| JError (message : string).

(** ToBoolean: what [!v], [v && _], [v || _] and [if (v)] test. *)
Definition truthy (v : JsVal) : bool :=
  match v with
  | JUndefined | JNull => false
  | JBool b => b
  | JNum n => negb (n =? 0)
  | JStr s => negb (String.eqb s EmptyString)
  | JArr _ | JObj _ | JError _ => true
  end.

Fixpoint lookup (k : string) (fields : list (string * JsVal)) : JsVal :=
  match fields with
  | [] => JUndefined
  | (k', v) :: rest => if String.eqb k k' then v else lookup k rest
  end.

(** Property access [v.k]: [None] is the TypeError raised on null and
    undefined; a missing property reads as undefined. *)
Definition get_prop (v : JsVal) (k : string) : option JsVal :=
  match v with
  | JUndefined | JNull => None
  | JObj fields => Some (lookup k fields)
  | JError m => Some (if String.eqb k "message" then JStr m else JUndefined)
  | JBool _ | JNum _ | JStr _ | JArr _ => Some JUndefined
  end.

(** [s.includes(sub)]. *)
Fixpoint includes (s sub : string) : bool :=
  if String.prefix sub s then true
  else match s with
       | EmptyString => false
       | String _ rest => includes rest sub
       end.

(** Decimal digits of an integer. *)
Definition digits (n : Z) : string :=
  NilZero.string_of_int (Z.to_int n).

(** ToString, as [String(v)] and the [Error] constructor apply it: an
    array prints its elements separated by commas, null and undefined
    elements as nothing; a plain object prints as [object Object]; an
    Error prints its name and message.  Integers print in full (as
    JavaScript does below 10^21). *)
Fixpoint to_string (v : JsVal) : string :=
  match v with
  | JUndefined => "undefined"
  | JNull => "null"
  | JBool true => "true"
  | JBool false => "false"
  | JNum n => digits n
  | JStr s => s
  | JArr elems =>
      let element (x : JsVal) : string :=
        match x with
        | JUndefined | JNull => EmptyString
        | _ => to_string x
        end in
      let fix joined (l : list JsVal) : string :=
        match l with
        | [] => EmptyString
        | [x] => element x
        | x :: rest => (element x ++ "," ++ joined rest)%string
        end in
      joined elems
  | JObj _ => "[object Object]"
  | JError m =>
      if String.eqb m EmptyString then "Error" else ("Error: " ++ m)%string
  end.

(** How the promise of an asynchronous operation settles. *)
Inductive Settled : Type :=
| Resolved (v : JsVal)
| Rejected (e : JsVal).

(** How a call of an [async] function of the hooks ends for its caller:
    the promise resolves with a value or rejects with the thrown error. *)
Inductive Completion : Type :=
| Returned (v : JsVal)
| Thrown (e : JsVal).


(** A serializer for a fragment of the values ([JSON.stringify] on
    integers, booleans, null, strings without characters that need an
    escape, arrays and objects), used to run the models on examples.
    The theorems about the cache hold for any serializer. *)
Definition quoted (s : string) : string :=
  String (Ascii.ascii_of_nat 34) (s ++ String (Ascii.ascii_of_nat 34) EmptyString)%string.

Fixpoint stringify (v : JsVal) : string :=
  match v with
  | JUndefined | JNull => "null"
  | JBool true => "true"
  | JBool false => "false"
  | JNum n => digits n
  | JStr s => quoted s
  | JArr elems =>
      let fix items (l : list JsVal) : string :=
        match l with
        | [] => EmptyString
        | [x] => stringify x
        | x :: rest => (stringify x ++ "," ++ items rest)%string
        end in
      ("[" ++ items elems ++ "]")%string
  | JObj fields =>
      let fix members (l : list (string * JsVal)) : string :=
        match l with
        | [] => EmptyString
        | [(k, x)] => (quoted k ++ ":" ++ stringify x)%string
        | (k, x) :: rest =>
            (quoted k ++ ":" ++ stringify x ++ "," ++ members rest)%string
        end in
      ("{" ++ members fields ++ "}")%string
  | JError _ => "{}"
  end.

End Js.
Import Js.

(** ** The Call Controller: [useApiCall] *)

Module ApiCall.

(** The options of the hook.  [onSuccess] and [onError] say whether the
    callback was supplied; a supplied callback is called and returns. *)
Record Options : Type := {
  loadOnMount : bool;
  cache : bool;
  cacheTime : Z;
  onSuccess : bool;
  onError : bool
}.

(** The wrapped operation: the [requiresAuth] flag attached to the
    function, and how the promise of a call with given arguments
    settles. *)
Record ApiFunction : Type := {
  requiresAuth : bool;
  call : list JsVal -> Settled
}.

(** [cacheRef.current]: [{ timestamp, data, params }]. *)
Record CacheEntry : Type := {
  timestamp : option Z;
  entry_data : JsVal;
  entry_params : JsVal
}.

Definition empty_entry : CacheEntry :=
  {| timestamp := None; entry_data := JNull; entry_params := JNull |}.

Inductive Event : Type :=
| SetData (v : JsVal)
| SetLoading (b : bool)
| SetError (e : JsVal)
| Invoke (args : list JsVal)
| OnSuccess (v : JsVal)
| OnError (e : JsVal).

Record World : Type := {
  data : JsVal;
  loading : bool;
  error : JsVal;
  cacheRef : CacheEntry;
  log : list Event
}.

Definition initial : World :=
  {| data := JNull; loading := false; error := JNull;
     cacheRef := empty_entry; log := [] |}.

Definition emit (e : Event) (w : World) : World :=
  {| data := data w; loading := loading w; error := error w;
     cacheRef := cacheRef w; log := log w ++ [e] |}.

Definition setData (v : JsVal) (w : World) : World :=
  {| data := v; loading := loading w; error := error w;
     cacheRef := cacheRef w; log := log w ++ [SetData v] |}.

Definition setLoading (b : bool) (w : World) : World :=
  {| data := data w; loading := b; error := error w;
     cacheRef := cacheRef w; log := log w ++ [SetLoading b] |}.

Definition setError (e : JsVal) (w : World) : World :=
  {| data := data w; loading := loading w; error := e;
     cacheRef := cacheRef w; log := log w ++ [SetError e] |}.

Definition setCache (c : CacheEntry) (w : World) : World :=
  {| data := data w; loading := loading w; error := error w;
     cacheRef := c; log := log w |}.

(** [!timestamp]: null, or the number 0. *)
Definition timestamp_truthy (t : option Z) : bool :=
  match t with
  | None => false
  | Some n => negb (n =? 0)
  end.

Definition age (now : Z) (t : option Z) : Z :=
  match t with
  | None => now
  | Some n => now - n
  end.

Definition is_invoke (e : Event) : bool :=
  match e with Invoke _ => true | _ => false end.

(** Number of calls of the wrapped operation recorded in a log. *)
Definition invocations (l : list Event) : nat :=
  List.length (filter is_invoke l).

(** [new Error('Authentication required')]. *)
Definition authError : JsVal := JError "Authentication required".

(** The authentication gate of [execute] lets the call through. *)
Definition auth_passes (isAuthenticated : bool) (apiFunction : ApiFunction) : Prop :=
  requiresAuth apiFunction && negb isAuthenticated = false.

Section WithSerializer.

(** [JSON.stringify], a builtin of the host. *)
Variable JSON_stringify : JsVal -> string.

Definition isCacheValid (opts : Options) (now : Z) (c : CacheEntry)
    (params : JsVal) : bool :=
  if negb (cache opts) then false
  else if negb (timestamp_truthy (timestamp c)) || negb (truthy (entry_data c))
  then false
  else if age now (timestamp c) >? cacheTime opts then false
  else String.eqb (JSON_stringify params) (JSON_stringify (entry_params c)).

Definition clearCache (w : World) : World := setCache empty_entry w.

(** [execute(...params)], called at time [t_call]; when the operation
    is invoked its promise settles at time [t_done]. *)
Definition execute (opts : Options) (isAuthenticated : bool)
    (apiFunction : ApiFunction) (params : list JsVal)
    (t_call t_done : Z) (w : World) : World * Completion :=
  if requiresAuth apiFunction && negb isAuthenticated then
    let w := setError authError w in
    let w := if onError opts then emit (OnError authError) w else w in
    (w, Returned JUndefined)
  else if isCacheValid opts t_call (cacheRef w) (JArr params) then
    let hit := entry_data (cacheRef w) in
    let w := setData hit w in
    (w, Returned hit)
  else
    let w := setLoading true w in
    let w := setError JNull w in
    let w := emit (Invoke params) w in
    match call apiFunction params with
    | Resolved result =>
        let w := setData result w in
        let w :=
          if cache opts then
            setCache {| timestamp := Some t_done; entry_data := result;
                        entry_params := JArr params |} w
          else w in
        let w := if onSuccess opts then emit (OnSuccess result) w else w in
        let w := setLoading false w in
        (w, Returned result)
    | Rejected err =>
        let w := setError err w in
        let w := if onError opts then emit (OnError err) w else w in
        let w := setLoading false w in
        (w, Thrown err)
    end.

Definition reset (w : World) : World :=
  clearCache (setError JNull (setLoading false (setData JNull w))).

(** The mount effect: [if (loadOnMount) execute()]. *)
Definition mount (opts : Options) (isAuthenticated : bool)
    (apiFunction : ApiFunction) (t_call t_done : Z) : World :=
  if loadOnMount opts then
    fst (execute opts isAuthenticated apiFunction [] t_call t_done initial)
  else initial.

(** The events a call added to the log. *)
Definition new_events (w w' : World) : list Event :=
  skipn (List.length (log w)) (log w').

(** The cache entry the specification speaks of: there is a stored
    timestamp, the stored params serialize like the requested ones
    (the structural equality of the design), and the age of the entry
    is within [cacheTime]. *)
Definition entry_matches (opts : Options) (now : Z) (c : CacheEntry)
    (params : JsVal) : Prop :=
  exists t, timestamp c = Some t /\
    JSON_stringify params = JSON_stringify (entry_params c) /\
    now - t <= cacheTime opts.

(** The entry that [isCacheValid] accepts. *)
Definition entry_serves (opts : Options) (now : Z) (c : CacheEntry)
    (params : JsVal) : Prop :=
  exists t, timestamp c = Some t /\ t <> 0 /\
    truthy (entry_data c) = true /\
    JSON_stringify params = JSON_stringify (entry_params c) /\
    now - t <= cacheTime opts.

End WithSerializer.

(** *** Example configurations *)

Definition caching (ms : Z) : Options :=
  {| loadOnMount := false; cache := true; cacheTime := ms;
     onSuccess := true; onError := true |}.

Definition answers (v : JsVal) : ApiFunction :=
  {| requiresAuth := false; call := fun _ => Resolved v |}.

Definition fails (e : JsVal) : ApiFunction :=
  {| requiresAuth := false; call := fun _ => Rejected e |}.


(** The state after a first call [execute({id: 1})] at time 1000 whose
    operation resolved with [v] ten milliseconds later. *)
Definition after_first_call (v : JsVal) : World :=
  fst (execute stringify (caching 5000) true (answers v)
         [JObj [("id", JNum 1)]] 1000 1010 initial).

End ApiCall.

(** ** The Call Controller with the failures of its host *)

(** [execute] again, with what the definitions of [ApiCall] take for
    granted: [JSON.stringify] throws a TypeError on some values (a BigInt,
    a cyclic structure), and a callback supplied by the user may throw.
    With a serializer that always yields a text and callbacks that return
    the two models agree. *)
Module ApiCallFull.
Import ApiCall.

(** What [JSON.stringify] does with a value. *)
Inductive Serialized : Type :=
| Text (s : string)
| Throws (e : JsVal).

(** What the callbacks do when called: [None] when the call returns,
    the error when it throws.  They are consulted only when the option
    says a callback was supplied. *)
Record Callbacks : Type := {
  on_success : JsVal -> option JsVal;
  on_error : JsVal -> option JsVal
}.

Definition returning : Callbacks :=
  {| on_success := fun _ => None; on_error := fun _ => None |}.

(** How the cache check ends. *)
Inductive Checked : Type :=
| Valid (b : bool)
| Raised (e : JsVal).



Section WithSerializer.

Variable JSON_stringify : JsVal -> Serialized.

(** [isCacheValid]: the two serializations happen only when caching is
    on and the entry has a timestamp, data, and has not expired; the
    requested params are serialized first. *)
Definition isCacheValid (opts : Options) (now : Z) (c : CacheEntry)
    (params : JsVal) : Checked :=
  if negb (cache opts) then Valid false
  else if negb (timestamp_truthy (timestamp c)) || negb (truthy (entry_data c))
  then Valid false
  else if age now (timestamp c) >? cacheTime opts then Valid false
  else match JSON_stringify params with
       | Throws e => Raised e
       | Text requested =>
           match JSON_stringify (entry_params c) with
           | Throws e => Raised e
           | Text cached => Valid (String.eqb requested cached)
           end
       end.

(** The [catch] block followed by [finally]: the error is stored, the
    error callback called, and the error raised again, unless the
    callback itself throws. *)
Definition catch_block (opts : Options) (cb : Callbacks) (err : JsVal)
    (w : World) : World * Completion :=
  let w := setError err w in
  if onError opts then
    let w := emit (OnError err) w in
    match on_error cb err with
    | Some thrown => (setLoading false w, Thrown thrown)
    | None => (setLoading false w, Thrown err)
    end
  else (setLoading false w, Thrown err).

Definition execute (opts : Options) (cb : Callbacks) (isAuthenticated : bool)
    (apiFunction : ApiFunction) (params : list JsVal)
    (t_call t_done : Z) (w : World) : World * Completion :=
  if requiresAuth apiFunction && negb isAuthenticated then
    let w := setError authError w in
    if onError opts then
      let w := emit (OnError authError) w in
      match on_error cb authError with
      | Some thrown => (w, Thrown thrown)
      | None => (w, Returned JUndefined)
      end
    else (w, Returned JUndefined)
  else
    match isCacheValid opts t_call (cacheRef w) (JArr params) with
    | Raised e => (w, Thrown e)
    | Valid true =>
        let hit := entry_data (cacheRef w) in
        let w := setData hit w in
        (w, Returned hit)
    | Valid false =>
        let w := setLoading true w in
        let w := setError JNull w in
        let w := emit (Invoke params) w in
        match call apiFunction params with
        | Resolved result =>
            let w := setData result w in
            let w :=
              if cache opts then
                setCache {| timestamp := Some t_done; entry_data := result;
                            entry_params := JArr params |} w
              else w in
            if onSuccess opts then
              let w := emit (OnSuccess result) w in
              match on_success cb result with
              | Some thrown => catch_block opts cb thrown w
              | None => (setLoading false w, Returned result)
              end
            else (setLoading false w, Returned result)
        | Rejected err => catch_block opts cb err w
        end
    end.

(** The entry is one the cache check goes on to compare params with. *)
Definition entry_live (opts : Options) (now : Z) (c : CacheEntry) : Prop :=
  exists t, timestamp c = Some t /\ t <> 0 /\
    truthy (entry_data c) = true /\ now - t <= cacheTime opts.

(** [JSON.stringify] does not throw where the cache check calls it. *)
Definition serializes (opts : Options) (now : Z) (c : CacheEntry)
    (params : JsVal) : Prop :=
  entry_live opts now c ->
  (exists a, JSON_stringify params = Text a) /\
  (exists b, JSON_stringify (entry_params c) = Text b).

(** The entry that the cache check accepts. *)
Definition entry_serves (opts : Options) (now : Z) (c : CacheEntry)
    (params : JsVal) : Prop :=
  entry_live opts now c /\
  exists a, JSON_stringify params = Text a /\
            JSON_stringify (entry_params c) = Text a.

(** The cache entry the specification speaks of: a stored timestamp,
    stored params that serialize like the requested ones, and an age
    within [cacheTime]. *)
Definition entry_matches (opts : Options) (now : Z) (c : CacheEntry)
    (params : JsVal) : Prop :=
  exists t a, timestamp c = Some t /\
    JSON_stringify params = Text a /\
    JSON_stringify (entry_params c) = Text a /\
    now - t <= cacheTime opts.

End WithSerializer.

(** The serializer of the examples, which throws on nothing. *)
Definition serialize (v : JsVal) : Serialized := Text (stringify v).

(** The state after a first call [execute({id: 1})] at time 1000 whose
    operation resolved with [v] ten milliseconds later. *)
Definition after_first_call (v : JsVal) : World :=
  fst (execute serialize (caching 5000) returning true (answers v)
         [JObj [("id", JNum 1)]] 1000 1010 initial).

End ApiCallFull.

(** ** The Poller: [useApiPolling] *)

Module Polling.

(** The arguments of the hook and the ambient authentication signal of
    the render.  [requiresAuth] is the flag attached to the operation. *)
Record Config : Type := {
  requiresAuth : bool;
  isAuthenticated : bool;
  interval : Z;
  immediate : bool;
  stopOnError : bool
}.

(** [Poll] marks an entry into [executePoll], [Invoke] a call of the
    operation, [SetInterval] and [ClearInterval] the calls of the host
    scheduler. *)
Inductive Event : Type :=
| SetData (v : JsVal)
| SetLoading (b : bool)
| SetError (e : JsVal)
| SetIsPolling (b : bool)
| Poll
| Invoke
| SetInterval (id : nat)
| ClearInterval (id : nat).

(** The state of the hook, [timerRef.current], and the interval timers
    that are live in the host. *)
Record World : Type := {
  data : JsVal;
  loading : bool;
  error : JsVal;
  isPolling : bool;
  timerRef : option nat;
  timers : list nat;
  next_timer : nat;
  log : list Event
}.

Definition initial (cfg : Config) : World :=
  {| data := JNull; loading := false; error := JNull;
     isPolling := immediate cfg; timerRef := None; timers := [];
     next_timer := 0%nat; log := [] |}.

Definition emit (e : Event) (w : World) : World :=
  {| data := data w; loading := loading w; error := error w;
     isPolling := isPolling w; timerRef := timerRef w; timers := timers w;
     next_timer := next_timer w; log := log w ++ [e] |}.

Definition setData (v : JsVal) (w : World) : World :=
  {| data := v; loading := loading w; error := error w;
     isPolling := isPolling w; timerRef := timerRef w; timers := timers w;
     next_timer := next_timer w; log := log w ++ [SetData v] |}.

Definition setLoading (b : bool) (w : World) : World :=
  {| data := data w; loading := b; error := error w;
     isPolling := isPolling w; timerRef := timerRef w; timers := timers w;
     next_timer := next_timer w; log := log w ++ [SetLoading b] |}.

Definition setError (e : JsVal) (w : World) : World :=
  {| data := data w; loading := loading w; error := e;
     isPolling := isPolling w; timerRef := timerRef w; timers := timers w;
     next_timer := next_timer w; log := log w ++ [SetError e] |}.

Definition setIsPolling (b : bool) (w : World) : World :=
  {| data := data w; loading := loading w; error := error w;
     isPolling := b; timerRef := timerRef w; timers := timers w;
     next_timer := next_timer w; log := log w ++ [SetIsPolling b] |}.

(** [timerRef.current = setInterval(executePoll, interval)]. *)
Definition setInterval (w : World) : World :=
  let id := next_timer w in
  {| data := data w; loading := loading w; error := error w;
     isPolling := isPolling w; timerRef := Some id; timers := id :: timers w;
     next_timer := S id; log := log w ++ [SetInterval id] |}.

Definition clearTimer (w : World) : World :=
  match timerRef w with
  | Some id =>
      {| data := data w; loading := loading w; error := error w;
         isPolling := isPolling w; timerRef := None;
         timers := filter (fun t => negb (Nat.eqb t id)) (timers w);
         next_timer := next_timer w; log := log w ++ [ClearInterval id] |}
  | None => w
  end.

(** [executePoll] up to its [await]: the flag says whether the operation
    was called, so that its promise is pending. *)
Definition executePoll_begin (cfg : Config) (w : World) : World * bool :=
  let w := emit Poll w in
  if requiresAuth cfg && negb (isAuthenticated cfg) then (w, false)
  else
    let w := setLoading true w in
    let w := setError JNull w in
    (emit Invoke w, true).

(** [executePoll] from the settlement of the operation to its end. *)
Definition executePoll_settle (cfg : Config) (r : Settled) (w : World)
    : World * Completion :=
  match r with
  | Resolved result =>
      let w := setData result w in
      let w := setLoading false w in
      (w, Returned result)
  | Rejected err =>
      let w := setError err w in
      let w := if stopOnError cfg then clearTimer (setIsPolling false w) else w in
      let w := setLoading false w in
      (w, Thrown err)
  end.

(** A whole invocation, when nothing else runs while the operation is
    pending. *)
Definition executePoll (cfg : Config) (r : Settled) (w : World)
    : World * Completion :=
  let (w1, pending) := executePoll_begin cfg w in
  if pending then executePoll_settle cfg r w1 else (w1, Returned JUndefined).

(** [startPolling], created by a render in which [isPolling] had the
    value [snapshot].  The promise of the immediate invocation is
    dropped; the flag says whether it is pending. *)
Definition startPolling (cfg : Config) (snapshot : bool) (w : World)
    : World * bool :=
  if snapshot && (match timerRef w with Some _ => true | None => false end)
  then (w, false)
  else
    let w := setIsPolling true w in
    let (w, pending) :=
      if immediate cfg then executePoll_begin cfg w else (w, false) in
    (setInterval w, pending).

Definition stopPolling (w : World) : World :=
  clearTimer (setIsPolling false w).

(** The body of the polling effect and its cleanup. *)
Definition effect (cfg : Config) (snapshot : bool) (w : World) : World * bool :=
  if snapshot then startPolling cfg snapshot (clearTimer w) else (w, false).

Definition cleanup (w : World) : World := clearTimer w.

(** The first render followed by its effects. *)
Definition mount (cfg : Config) : World * bool :=
  effect cfg (isPolling (initial cfg)) (initial cfg).

(** What the hook does without a call of [startPolling] or of
    [executePoll] by its user: a live timer fires, a pending invocation
    settles, the effect runs again after a render (its cleanup first),
    the user stops polling, the component unmounts. *)
Inductive step (cfg : Config) : World -> World -> Prop :=
| step_tick : forall w id,
    In id (timers w) -> step cfg w (fst (executePoll_begin cfg w))
| step_settle : forall w r,
    step cfg w (fst (executePoll_settle cfg r w))
| step_effect : forall w,
    step cfg w (fst (effect cfg (isPolling w) (cleanup w)))
| step_stop : forall w,
    step cfg w (stopPolling w)
| step_unmount : forall w,
    step cfg w (cleanup w).

Inductive steps (cfg : Config) : World -> World -> Prop :=
| steps_refl : forall w, steps cfg w w
| steps_cons : forall w1 w2 w3,
    step cfg w1 w2 -> steps cfg w2 w3 -> steps cfg w1 w3.

(** The states of a mounted Poller under a restriction on its user: the
    steps of the hook, a run of the polling effect (cleanup first) of any
    render, and a call of the [startPolling] of any render except one in
    which [isPolling] is false while a timer is held, as the second of
    two calls within one render would be. *)
Inductive reachable (cfg : Config) : World -> Prop :=
| reach_mount : reachable cfg (fst (mount cfg))
| reach_step : forall w w',
    reachable cfg w -> step cfg w w' -> reachable cfg w'
| reach_effect : forall w snapshot,
    reachable cfg w -> reachable cfg (fst (effect cfg snapshot (cleanup w)))
| reach_start : forall w snapshot,
    reachable cfg w -> (snapshot = false -> timerRef w = None) ->
    reachable cfg (fst (startPolling cfg snapshot w)).

(** Every live timer is the one held in [timerRef]. *)
Definition owned (w : World) : Prop :=
  forall id, In id (timers w) -> timerRef w = Some id.

(** No timer is leaked, and a timer is held only while polling. *)
Definition tidy (w : World) : Prop :=
  owned w /\ (isPolling w = false -> timerRef w = None).

(** Polling is off: the flag is down and no timer is live. *)
Definition halted (w : World) : Prop :=
  isPolling w = false /\ timerRef w = None /\ timers w = [].

Definition is_activity (e : Event) : bool :=
  match e with
  | Poll | Invoke | SetInterval _ => true
  | _ => false
  end.

(** The invocations and timer creations recorded in a log. *)
Definition activity (l : list Event) : list Event := filter is_activity l.

Definition is_poll (e : Event) : bool :=
  match e with Poll => true | _ => false end.

Definition polls (l : list Event) : nat := List.length (filter is_poll l).

(** *** Example configurations *)

Definition polling (now : bool) (stop : bool) : Config :=
  {| requiresAuth := true; isAuthenticated := true; interval := 10000;
     immediate := now; stopOnError := stop |}.

End Polling.

(** ** The Paginator: [useInfiniteScroll] *)

Module InfiniteScroll.

Record Options : Type := {
  initialPage : Z;
  pageSize : Z;
  pageParam : string;
  limitParam : string
}.

Definition default_options : Options :=
  {| initialPage := 1; pageSize := 10; pageParam := "page"; limitParam := "limit" |}.

(** The responses of the paged operations: a bare array, or an object
    whose [data], [items] and [results] fields, when present, hold
    arrays and whose [total], [totalCount] and [count] fields, when
    present, hold numbers.  [None] is an absent (or null) field. *)
Inductive Response : Type :=
| RespArray (xs : list JsVal)
| RespObject (data items results : option (list JsVal))
             (total totalCount count : option Z).

Inductive PageSettled : Type :=
| PageResolved (response : Response)
| PageRejected (e : JsVal).

(** [a || b] on values that are an array or absent: an array is truthy,
    also when it is empty. *)
Definition or_array (a b : option (list JsVal)) : option (list JsVal) :=
  match a with
  | Some _ => a
  | None => b
  end.

(** [a || b] on values that are a number or absent: 0 is falsy. *)
Definition number_truthy (a : option Z) : bool :=
  match a with
  | Some n => negb (n =? 0)
  | None => false
  end.

Definition or_number (a b : option Z) : option Z :=
  if number_truthy a then a else b.

(** [response.data || response.items || response.results || response]:
    [None] stands for the response object itself, which has no
    [length]. *)
Definition newItems_of (response : Response) : option (list JsVal) :=
  match response with
  | RespArray xs => Some xs
  | RespObject data items results _ _ _ => or_array (or_array data items) results
  end.

(** [response.total || response.totalCount || response.count]. *)
Definition total_of (response : Response) : option Z :=
  match response with
  | RespArray _ => None
  | RespObject _ _ _ total totalCount count =>
      or_number (or_number total totalCount) count
  end.

Definition present (name : string) (field : option (list JsVal))
    : list (string * JsVal) :=
  match field with
  | Some l => [(name, JArr l)]
  | None => []
  end.

Definition present_number (name : string) (field : option Z)
    : list (string * JsVal) :=
  match field with
  | Some n => [(name, JNum n)]
  | None => []
  end.

Definition response_value (response : Response) : JsVal :=
  match response with
  | RespArray xs => JArr xs
  | RespObject data items results total totalCount count =>
      JObj (present "data" data ++ present "items" items
            ++ present "results" results ++ present_number "total" total
            ++ present_number "totalCount" totalCount
            ++ present_number "count" count)
  end.

(** The value of [newItems], which [fetchPage] returns. *)
Definition newItems_value (response : Response) : JsVal :=
  match newItems_of response with
  | Some l => JArr l
  | None => response_value response
  end.

(** [{ [pageParam]: pageNumber, [limitParam]: pageSize }]: with equal
    names the second key overwrites the first. *)
Definition build_params (opts : Options) (pageNumber : Z) : JsVal :=
  if String.eqb (pageParam opts) (limitParam opts) then
    JObj [(limitParam opts, JNum (pageSize opts))]
  else
    JObj [(pageParam opts, JNum pageNumber); (limitParam opts, JNum (pageSize opts))].

Inductive Event : Type :=
| SetItems (l : list JsVal)
| SetPage (n : Z)
| SetHasMore (b : bool)
| SetLoading (b : bool)
| SetError (e : JsVal)
| Invoke (params : JsVal).

Record World : Type := {
  items : list JsVal;
  page : Z;
  hasMore : bool;
  loading : bool;
  error : JsVal;
  log : list Event
}.

Definition initial (opts : Options) : World :=
  {| items := []; page := initialPage opts; hasMore := true;
     loading := false; error := JNull; log := [] |}.

Definition emit (e : Event) (w : World) : World :=
  {| items := items w; page := page w; hasMore := hasMore w;
     loading := loading w; error := error w; log := log w ++ [e] |}.

Definition setItems (l : list JsVal) (w : World) : World :=
  {| items := l; page := page w; hasMore := hasMore w;
     loading := loading w; error := error w; log := log w ++ [SetItems l] |}.

Definition setPage (n : Z) (w : World) : World :=
  {| items := items w; page := n; hasMore := hasMore w;
     loading := loading w; error := error w; log := log w ++ [SetPage n] |}.

Definition setHasMore (b : bool) (w : World) : World :=
  {| items := items w; page := page w; hasMore := b;
     loading := loading w; error := error w; log := log w ++ [SetHasMore b] |}.

Definition setLoading (b : bool) (w : World) : World :=
  {| items := items w; page := page w; hasMore := hasMore w;
     loading := b; error := error w; log := log w ++ [SetLoading b] |}.

Definition setError (e : JsVal) (w : World) : World :=
  {| items := items w; page := page w; hasMore := hasMore w;
     loading := loading w; error := e; log := log w ++ [SetError e] |}.

Definition len (l : list JsVal) : Z := Z.of_nat (List.length l).

(** [newItems && newItems.length > 0]. *)
Definition nonempty (newItems : option (list JsVal)) : bool :=
  match newItems with
  | Some l => len l >? 0
  | None => false
  end.

Definition array_of (newItems : option (list JsVal)) : list JsVal :=
  match newItems with
  | Some l => l
  | None => []
  end.

(** What [fetchPage] does with a response: [snap] is the render the
    callback belongs to, [w] the state the setters act on. *)
Definition receive (opts : Options) (snap : World) (pageNumber : Z)
    (response : Response) (w : World) : World :=
  let newItems := newItems_of response in
  let total := total_of response in
  if nonempty newItems then
    let w :=
      if pageNumber =? initialPage opts then setItems (array_of newItems) w
      else setItems (items w ++ array_of newItems) w in
    let w :=
      match total with
      | Some t =>
          if number_truthy total then
            setHasMore (len (items snap) + len (array_of newItems) <? t) w
          else setHasMore (len (array_of newItems) >=? pageSize opts) w
      | None => setHasMore (len (array_of newItems) >=? pageSize opts) w
      end in
    setPage pageNumber w
  else setHasMore false w.

(** [fetchPage(pageNumber = page)]; [None] is a call without the
    argument. *)
Definition fetchPage (opts : Options) (apiFunction : JsVal -> PageSettled)
    (snap : World) (pageNumber : option Z) (w : World) : World * Completion :=
  let pageNumber :=
    match pageNumber with
    | Some n => n
    | None => page snap
    end in
  if loading snap || negb (hasMore snap) then (w, Returned JUndefined)
  else
    let w := setLoading true w in
    let w := setError JNull w in
    let params := build_params opts pageNumber in
    let w := emit (Invoke params) w in
    match apiFunction params with
    | PageResolved response =>
        let w := receive opts snap pageNumber response w in
        let w := setLoading false w in
        (w, Returned (newItems_value response))
    | PageRejected err =>
        let w := setError err w in
        let w := setLoading false w in
        (w, Thrown err)
    end.

Definition loadMore (opts : Options) (apiFunction : JsVal -> PageSettled)
    (snap : World) (w : World) : World * Completion :=
  if negb (loading snap) && hasMore snap then
    fetchPage opts apiFunction snap (Some (page snap + 1)) w
  else (w, Returned JUndefined).

Definition refresh (opts : Options) (apiFunction : JsVal -> PageSettled)
    (snap : World) (w : World) : World * Completion :=
  let w := setHasMore true w in
  fetchPage opts apiFunction snap (Some (initialPage opts)) w.

(** A call of a callback of the latest render: the snapshot is the
    state at the call. *)
Definition call {A : Type} (f : World -> World -> A) (w : World) : A := f w w.

Definition is_invoke (e : Event) : bool :=
  match e with Invoke _ => true | _ => false end.

Definition invocations (l : list Event) : nat :=
  List.length (filter is_invoke l).

(** [n] calls of [loadMore], each from a fresh render. *)
Fixpoint loadMore_times (opts : Options) (apiFunction : JsVal -> PageSettled)
    (n : nat) (w : World) : World :=
  match n with
  | O => w
  | S k =>
      loadMore_times opts apiFunction k (fst (call (loadMore opts apiFunction) w))
  end.

(** The events a call added to the log. *)
Definition new_events (w w' : World) : list Event :=
  skipn (List.length (log w)) (log w').

(** [fetchPage(n)] called from the latest render. *)
Definition fetch (opts : Options) (apiFunction : JsVal -> PageSettled)
    (n : Z) (w : World) : World * Completion :=
  call (fun snap => fetchPage opts apiFunction snap (Some n)) w.

(** *** Example backends *)

(** The records 1 .. n. *)
Definition catalogue (n : nat) : list JsVal :=
  map (fun i => JNum (Z.of_nat i)) (seq 1 n).

Definition param_number (params : JsVal) (k : string) : Z :=
  match get_prop params k with
  | Some (JNum n) => n
  | _ => 0
  end.

Definition slice (all : list JsVal) (p limit : Z) : list JsVal :=
  firstn (Z.to_nat limit) (skipn (Z.to_nat ((p - 1) * limit)) all).

(** A backend that serves the pages of [all] under [data], with the
    total when [with_total] is set. *)
Definition backend (all : list JsVal) (with_total : bool) (params : JsVal)
    : PageSettled :=
  PageResolved
    (RespObject
       (Some (slice all (param_number params "page") (param_number params "limit")))
       None None
       (if with_total then Some (len all) else None) None None).

(** A backend whose collection has been emptied, with a total that
    is still reported. *)
Definition emptied (reported_total : Z) (params : JsVal) : PageSettled :=
  PageResolved (RespObject (Some []) None None (Some reported_total) None None).

Definition down (e : JsVal) (params : JsVal) : PageSettled := PageRejected e.

(** The state after fetching the first [n] pages of 25 records, ten a
    page, from a backend that reports the total. *)
Fixpoint after_pages (n : nat) : World :=
  match n with
  | O => initial default_options
  | S k =>
      fst (fetch default_options (backend (catalogue 25) true)
             (Z.of_nat (S k)) (after_pages k))
  end.

End InfiniteScroll.

(** ** The REST client: [apiRequest] *)

Module Api.

(** [APIError]: [message] is the string the [Error] constructor keeps
    of the value handed to it. *)
Record APIError : Type := {
  message : JsVal;
  status : Z;
  data : JsVal
}.

(** [new APIError(message, status, data = null)], with
    [super(message || 'API request failed')]. *)
Definition new_APIError (msg : JsVal) (st : Z) (d : JsVal) : APIError :=
  {| message :=
       JStr (to_string (if truthy msg then msg else JStr "API request failed"));
     status := st; data := d |}.

(** What the client reads of a response: the status, the content-type
    header, and what [response.json()] and [response.text()] give
    ([None] when the promise rejects, as [json()] does on a body that
    is not JSON). *)
Record Response : Type := {
  resp_status : Z;
  content_type : option string;
  json : option JsVal;
  text : option string
}.

(** [response.ok]: the status is in the range 200-299. *)
Definition ok (r : Response) : bool :=
  (200 <=? resp_status r) && (resp_status r <=? 299).

(** How [fetch] settles: with a response, or with a rejection when the
    network fails. *)
Inductive FetchResult : Type :=
| Responded (r : Response)
| NetworkFailure (e : JsVal).

Inductive Result : Type :=
| Ok (v : JsVal)
| Raise (e : APIError).

(** [contentType && contentType.includes('application/json')]. *)
Definition isJson (r : Response) : bool :=
  match content_type r with
  | Some ct => negb (String.eqb ct EmptyString) && includes ct "application/json"
  | None => false
  end.

Definition read_body (r : Response) : option JsVal :=
  if isJson r then json r
  else match text r with
       | Some s => Some (JStr s)
       | None => None
       end.

(** The catch-all of the [catch] block: any error that is not an
    [APIError]. *)
Definition network_error : APIError :=
  new_APIError (JStr "Network error: Could not connect to the server") 0 JNull.

Definition default_message : JsVal :=
  JStr "An error occurred with the API request".

(** The response handling of [apiRequest]: [token] is the [authToken]
    entry of the local storage, returned as the call leaves it. *)
Definition apiRequest (fetched : FetchResult) (token : option string)
    : option string * Result :=
  match fetched with
  | NetworkFailure _ => (token, Raise network_error)
  | Responded response =>
      if resp_status response =? 204 then
        (token, Ok (JObj [("success", JBool true)]))
      else
        match read_body response with
        | None => (token, Raise network_error)
        | Some responseData =>
            if negb (ok response) then
              if resp_status response =? 401 then
                (None,
                 Raise (new_APIError (JStr "Unauthorized: Please log in again")
                          401 responseData))
              else if resp_status response =? 403 then
                (token,
                 Raise (new_APIError (JStr "Forbidden: You do not have permission")
                          403 responseData))
              else if resp_status response =? 404 then
                (token,
                 Raise (new_APIError
                          (JStr "Not found: The requested resource does not exist")
                          404 responseData))
              else if resp_status response =? 429 then
                (token,
                 Raise (new_APIError
                          (JStr "Too many requests: Please try again later")
                          429 responseData))
              else if isJson response then
                match get_prop responseData "message" with
                | None => (token, Raise network_error)
                | Some m =>
                    (token,
                     Raise (new_APIError
                              (if truthy m then m else default_message)
                              (resp_status response) responseData))
                end
              else
                (token,
                 Raise (new_APIError default_message
                          (resp_status response) responseData))
            else (token, Ok responseData)
        end
  end.

(** *** Example responses *)

(** A response announced as JSON whose body reads as [raw] and parses
    to [body], or does not parse. *)
Definition json_response (st : Z) (body : option JsVal) (raw : string) : Response :=
  {| resp_status := st; content_type := Some "application/json; charset=utf-8";
     json := body; text := Some raw |}.


(** The four statuses that have an error of their own. *)
Definition special (st : Z) : bool :=
  (st =? 401) || (st =? 403) || (st =? 404) || (st =? 429).

End Api.

(** ** The REST client: building the request *)

Module ApiClient.

(** A JavaScript object as its own enumerable properties, in insertion
    order; names are unique. *)
Definition Obj : Type := list (string * JsVal).

Definition has_own (k : string) (o : Obj) : bool :=
  existsb (fun kv => String.eqb k (fst kv)) o.

(** [o[k] = v]: a property that exists keeps its place. *)
Fixpoint assign (k : string) (v : JsVal) (o : Obj) : Obj :=
  match o with
  | [] => [(k, v)]
  | (k', v') :: rest =>
      if String.eqb k k' then (k, v) :: rest else (k', v') :: assign k v rest
  end.

(** [{ ...o, ...extra }]. *)
Definition spread (o extra : Obj) : Obj :=
  fold_left (fun acc kv => assign (fst kv) (snd kv) acc) extra o.

Fixpoint indexed (i : nat) (l : list JsVal) : Obj :=
  match l with
  | [] => []
  | x :: rest => (digits (Z.of_nat i), x) :: indexed (S i) rest
  end.

Fixpoint characters (s : string) : list JsVal :=
  match s with
  | EmptyString => []
  | String c rest => JStr (String c EmptyString) :: characters rest
  end.

(** The properties that [...v] copies: those of an object, the indexed
    elements of an array or string, none of undefined, null, a boolean, a
    number or an Error. *)
Definition fields_of (v : JsVal) : Obj :=
  match v with
  | JObj fields => fields
  | JArr elems => indexed 0 elems
  | JStr s => indexed 0 (characters s)
  | JUndefined | JNull | JBool _ | JNum _ | JError _ => []
  end.

Definition default_base : string := "http://localhost:8000/api".

(** [process.env.NEXT_PUBLIC_API_URL || 'http://localhost:8000/api']. *)
Definition BASE_API_URL (env : option string) : string :=
  match env with
  | Some s => if String.eqb s EmptyString then default_base else s
  | None => default_base
  end.

(** [endpoint.startsWith('/')]. *)
Definition startsWith_slash (endpoint : string) : bool := String.prefix "/" endpoint.

Definition url_of (env : option string) (endpoint : string) : string :=
  (BASE_API_URL env
   ++ (if startsWith_slash endpoint then endpoint else "/" ++ endpoint))%string.

(** [requiresAuth && token], with [token] the stored string or null. *)
Definition token_truthy (token : option string) : bool :=
  match token with
  | Some s => negb (String.eqb s EmptyString)
  | None => false
  end.

Definition bearer (token : option string) : JsVal :=
  match token with
  | Some s => JStr ("Bearer " ++ s)
  | None => JStr "Bearer null"
  end.

Definition is_write (method : string) : bool :=
  String.eqb method "POST" || String.eqb method "PUT".

Section WithHost.

(** [JSON.stringify], [new URLSearchParams(_)] and [new FormData()] with
    one appended entry, builtins of the host; [fetch] is the network. *)
Variable JSON_stringify : JsVal -> string.
Variable URLSearchParams : JsVal -> JsVal.
Variable FormData : string -> JsVal -> JsVal.
Variable env : option string.
Variable fetch : string -> Obj -> Api.FetchResult.

(** The headers of the request, before [customConfig] is spread over the
    config. *)
Definition headers_of (requiresAuth : bool) (customConfig : Obj)
    (token : option string) : Obj :=
  let headers :=
    spread [("Content-Type", JStr "application/json")]
           (fields_of (lookup "headers" customConfig)) in
  if requiresAuth && token_truthy token
  then assign "Authorization" (bearer token) headers
  else headers.

(** The config handed to [fetch]. *)
Definition config_of (method : string) (data : JsVal) (requiresAuth : bool)
    (customConfig : Obj) (token : option string) : Obj :=
  let headers := headers_of requiresAuth customConfig token in
  let config :=
    spread [("method", JStr method); ("headers", JObj headers)] customConfig in
  if truthy data && is_write method
  then assign "body" (JStr (JSON_stringify data)) config
  else config.

(** [apiRequest(endpoint, method, data, requiresAuth = true,
    customConfig = {})] with the token found in the local storage:
    the token the call leaves there and the way it ends. *)
Definition apiRequest (endpoint method : string) (data : JsVal)
    (requiresAuth : bool) (customConfig : Obj) (token : option string)
    : option string * Api.Result :=
  Api.apiRequest
    (fetch (url_of env endpoint)
           (config_of method data requiresAuth customConfig token))
    token.

(** The custom config of the listing endpoints:
    [{ headers: {}, ...params && { url: new URLSearchParams(params) } }]. *)
Definition listing_config (params : JsVal) : Obj :=
  spread [("headers", JObj [])]
         (fields_of (if truthy params
                     then JObj [("url", URLSearchParams params)]
                     else params)).

(** *** Endpoint functions *)

Definition login (credentials : JsVal) :=
  apiRequest "auth/login" "POST" credentials false [].

Definition register (userData : JsVal) :=
  apiRequest "auth/register" "POST" userData false [].

Definition logout := apiRequest "auth/logout" "POST" JNull true [].

Definition getCurrentUser := apiRequest "auth/me" "GET" JNull true [].

Definition getHistory (params : JsVal) :=
  apiRequest "text/history" "GET" JNull true (listing_config params).

Definition getScenes (params : JsVal) :=
  apiRequest "ar/scenes" "GET" JNull true (listing_config params).

Definition getFeedbackHistory (params : JsVal) :=
  apiRequest "feedback/history" "GET" JNull true (listing_config params).

Definition getSceneById (id : string) :=
  apiRequest ("ar/scenes/" ++ id) "GET" JNull true [].

Definition deleteScene (id : string) :=
  apiRequest ("ar/scenes/" ++ id) "DELETE" JNull true [].

(** [{ sceneId, ...options }]. *)
Definition launch_data (sceneId options : JsVal) : JsVal :=
  JObj (spread [("sceneId", sceneId)] (fields_of options)).

Definition launchScene (sceneId options : JsVal) :=
  apiRequest "ar/launch" "POST" (launch_data sceneId options) true [].

Definition transcribeAudio (audioFile : JsVal) :=
  apiRequest "text/transcribe" "POST" JNull true
    [("headers", JObj []); ("body", FormData "audio" audioFile)].

End WithHost.

(** *** An example host *)

(** A server that answers 401 to a request without an Authorization
    header and 200 with [payload] otherwise. *)
Definition guarded_server (payload : JsVal) (url : string) (config : Obj)
    : Api.FetchResult :=
  if has_own "Authorization" (fields_of (lookup "headers" config)) then
    Api.Responded (Api.json_response 200 (Some payload) "{...}")
  else
    Api.Responded
      (Api.json_response 401 (Some (JObj [("detail", JStr "Not authenticated")]))
         "{...}").

Definition no_search (params : JsVal) : JsVal := params.

Definition no_form (name : string) (file : JsVal) : JsVal := JObj [(name, file)].

End ApiClient.

(** ** Pages that load through the client *)

Module Pages.

(** The state of the AR experience page that [fetchScenes] writes. *)
Record ScenesState : Type := {
  scenes : JsVal;
  isLoading : bool;
  error : JsVal
}.

Definition scenes_error : JsVal :=
  JStr "Failed to load AR scenes. Please try again.".

(** [fetchScenes] of the AR experience page, given how
    [arAPI.getScenes()] ended; [fallbackScenes] is the constant of the
    page. *)
Definition fetchScenes (fallbackScenes : JsVal) (outcome : Api.Result)
    (s : ScenesState) : ScenesState :=
  let s := {| scenes := scenes s; isLoading := true; error := error s |} in
  let s :=
    match outcome with
    | Api.Ok fetchedScenes =>
        {| scenes := fetchedScenes; isLoading := isLoading s; error := JNull |}
    | Api.Raise _ =>
        {| scenes := fallbackScenes; isLoading := isLoading s;
           error := scenes_error |}
    end in
  {| scenes := scenes s; isLoading := false; error := error s |}.

End Pages.

(** ** Sequences of calls on the hooks *)

Module Runs.

(** [n] calls of [stopPolling]. *)
Fixpoint stop_times (n : nat) (w : Polling.World) : Polling.World :=
  match n with
  | O => w
  | S k => stop_times k (Polling.stopPolling w)
  end.

(** At most one timer is live, and it is the one in [timerRef]. *)
Definition single_timer (w : Polling.World) : Prop :=
  (Polling.timerRef w = None /\ Polling.timers w = []) \/
  (exists id, Polling.timerRef w = Some id /\ Polling.timers w = [id] /\
              Polling.isPolling w = true).

(** The states of a Paginator whose user calls [refresh] and [loadMore]
    of the latest render, each call running to its end. *)
Inductive paging (opts : InfiniteScroll.Options) : InfiniteScroll.World -> Prop :=
| paging_initial : paging opts (InfiniteScroll.initial opts)
| paging_refresh : forall api w,
    paging opts w ->
    paging opts (fst (InfiniteScroll.call (InfiniteScroll.refresh opts api) w))
| paging_loadMore : forall api w,
    paging opts w ->
    paging opts (fst (InfiniteScroll.call (InfiniteScroll.loadMore opts api) w)).

Definition count_callbacks (l : list ApiCall.Event) : nat :=
  List.length
    (filter (fun e => match e with
                      | ApiCall.OnSuccess _ | ApiCall.OnError _ => true
                      | _ => false
                      end) l).

End Runs.

(** * Properties *)

(** ** Logs *)

Lemma skipn_length_app {A : Type} (l l' : list A) :
  skipn (List.length l) (l ++ l') = l'.
Proof.
  induction l as [|x l IH]; simpl; [reflexivity | exact IH].
Qed.

Lemma filter_length_snoc {A : Type} (f : A -> bool) (l : list A) (x : A) :
  List.length (filter f (l ++ [x])) =
  (List.length (filter f l) + (if f x then 1 else 0))%nat.
Proof.
  rewrite filter_app, length_app. simpl. destruct (f x); reflexivity.
Qed.

(** ** The Call Controller *)

Module ApiCallFacts.
Import ApiCall.

Section WithSerializer.

Variable JSON_stringify : JsVal -> string.

Lemma isCacheValid_serves opts now c params :
  cache opts = true ->
  isCacheValid JSON_stringify opts now c params = true <->
  entry_serves JSON_stringify opts now c params.
Proof.
  intros Hc. unfold isCacheValid, entry_serves. rewrite Hc. simpl.
  destruct (timestamp c) as [t|]; simpl.
  - destruct (Z.eqb_spec t 0) as [-> | Hnz]; simpl.
    + split; [discriminate|]. intros (t & Ht & Hnz & _). congruence.
    + destruct (truthy (entry_data c)); simpl.
      * destruct (Z.gtb_spec (now - t) (cacheTime opts)) as [Hold | Hfresh].
        -- split; [discriminate|]. intros (t' & Ht & _ & _ & _ & Hage).
           injection Ht as <-. lia.
        -- rewrite String.eqb_eq. split.
           ++ intros Heq. exists t. repeat split; auto.
           ++ intros (t' & _ & _ & _ & Heq & _). exact Heq.
      * split; [discriminate|]. intros (t' & _ & _ & Htr & _). discriminate.
  - split; [discriminate|]. intros (t & Ht & _). discriminate.
Qed.

Lemma execute_hit opts isAuthenticated apiFunction params t_call t_done w :
  auth_passes isAuthenticated apiFunction ->
  isCacheValid JSON_stringify opts t_call (cacheRef w) (JArr params) = true ->
  execute JSON_stringify opts isAuthenticated apiFunction params t_call t_done w =
  (setData (entry_data (cacheRef w)) w, Returned (entry_data (cacheRef w))).
Proof.
  unfold auth_passes, execute. intros -> ->. reflexivity.
Qed.

Lemma execute_miss_invokes opts isAuthenticated apiFunction params t_call t_done w :
  auth_passes isAuthenticated apiFunction ->
  isCacheValid JSON_stringify opts t_call (cacheRef w) (JArr params) = false ->
  let w' := fst (execute JSON_stringify opts isAuthenticated apiFunction params t_call t_done w) in
  invocations (log w') = S (invocations (log w)) /\
  In (Invoke params) (new_events w w').
Proof.
  unfold auth_passes, execute. intros -> ->.
  destruct (call apiFunction params) as [result | err];
    destruct (cache opts), (onSuccess opts), (onError opts);
    unfold new_events, invocations; simpl;
    rewrite ?filter_length_snoc; simpl; rewrite <- ?app_assoc;
    rewrite skipn_length_app; simpl; split; try lia; auto.
Qed.

Lemma execute_hit_no_invoke opts isAuthenticated apiFunction params t_call t_done w :
  auth_passes isAuthenticated apiFunction ->
  isCacheValid JSON_stringify opts t_call (cacheRef w) (JArr params) = true ->
  let r := execute JSON_stringify opts isAuthenticated apiFunction params t_call t_done w in
  snd r = Returned (entry_data (cacheRef w)) /\
  data (fst r) = entry_data (cacheRef w) /\
  new_events w (fst r) = [SetData (entry_data (cacheRef w))] /\
  invocations (log (fst r)) = invocations (log w) /\
  cacheRef (fst r) = cacheRef w.
Proof.
  intros Ha Hv. cbv zeta. rewrite (execute_hit _ _ _ _ _ t_done _ Ha Hv).
  unfold new_events, invocations. simpl.
  rewrite filter_length_snoc, skipn_length_app. simpl.
  repeat split; auto; lia.
Qed.

(** With a serializer that throws on nothing: with caching enabled and
    the authentication gate passed, [execute(params)] calls the wrapped
    operation if and only if there is no cache entry with a non-zero
    timestamp and truthy data whose stored params serialize to the
    same JSON text as [params] and whose age is at most [cacheTime].
    On such an entry it returns the cached data and sets [data] to it
    without calling the operation; when the entry is older than
    [cacheTime] the operation is called again. *)
Theorem execute_invokes_iff_no_served_entry
    opts isAuthenticated apiFunction params t_call t_done w :
  cache opts = true ->
  auth_passes isAuthenticated apiFunction ->
  let r := execute JSON_stringify opts isAuthenticated apiFunction params t_call t_done w in
  (invocations (log (fst r)) = S (invocations (log w)) <->
   ~ entry_serves JSON_stringify opts t_call (cacheRef w) (JArr params)) /\
  (entry_serves JSON_stringify opts t_call (cacheRef w) (JArr params) ->
   snd r = Returned (entry_data (cacheRef w)) /\
   data (fst r) = entry_data (cacheRef w) /\
   new_events w (fst r) = [SetData (entry_data (cacheRef w))] /\
   invocations (log (fst r)) = invocations (log w)) /\
  (forall t, timestamp (cacheRef w) = Some t -> t_call - t > cacheTime opts ->
   invocations (log (fst r)) = S (invocations (log w)) /\
   In (Invoke params) (new_events w (fst r))).
Proof.
  intros Hc Ha r.
  pose proof (isCacheValid_serves opts t_call (cacheRef w) (JArr params) Hc) as Hs.
  destruct (isCacheValid JSON_stringify opts t_call (cacheRef w) (JArr params)) eqn:Hv.
  - assert (Hserve : entry_serves JSON_stringify opts t_call (cacheRef w) (JArr params))
      by (apply Hs; reflexivity).
    destruct (execute_hit_no_invoke opts _ _ params t_call t_done w Ha Hv)
      as (H1 & H2 & H3 & H4 & _).
    fold r in H1, H2, H3, H4.
    split; [|split].
    + split; [intros Hinv; lia | intros Hno; contradiction].
    + intros _. auto.
    + intros t Ht Hold. destruct Hserve as (t' & Ht' & _ & _ & _ & Hage).
      rewrite Ht in Ht'. injection Ht' as <-. lia.
  - assert (Hno : ~ entry_serves JSON_stringify opts t_call (cacheRef w) (JArr params))
      by (intros Hserve; apply Hs in Hserve; discriminate).
    destruct (execute_miss_invokes opts _ _ params t_call t_done w Ha Hv)
      as (H1 & H2).
    fold r in H1, H2.
    split; [|split].
    + split; auto.
    + intros Hserve. contradiction.
    + intros; auto.
Qed.

End WithSerializer.

End ApiCallFacts.

Module ApiCallExamples.
Import ApiCall.

Example first_call_fills_cache :
  cacheRef (after_first_call (JStr "ok")) =
  {| timestamp := Some 1010; entry_data := JStr "ok";
     entry_params := JArr [JObj [("id", JNum 1)]] |}.
Proof. reflexivity. Qed.

Example second_call_within_window :
  let r := execute stringify (caching 5000) true (answers (JStr "new"))
             [JObj [("id", JNum 1)]] 5000 5010 (after_first_call (JStr "ok")) in
  snd r = Returned (JStr "ok") /\
  invocations (log (fst r)) = 1%nat.
Proof. vm_compute. split; reflexivity. Qed.

Example call_after_window :
  let r := execute stringify (caching 5000) true (answers (JStr "new"))
             [JObj [("id", JNum 1)]] 7000 7010 (after_first_call (JStr "ok")) in
  snd r = Returned (JStr "new") /\
  invocations (log (fst r)) = 2%nat.
Proof. vm_compute. split; reflexivity. Qed.

Lemma execute_invokes_iff_no_served_entry_witness :
  let w := after_first_call (JStr "ok") in
  let r := execute stringify (caching 5000) true (answers (JStr "new"))
             [JObj [("id", JNum 1)]] 5000 5010 w in
  cache (caching 5000) = true /\
  auth_passes true (answers (JStr "new")) /\
  (invocations (log (fst r)) = S (invocations (log w)) <->
   ~ entry_serves stringify (caching 5000) 5000 (cacheRef w)
       (JArr [JObj [("id", JNum 1)]])).
Proof.
  split; [reflexivity | split; [reflexivity |]].
  apply (ApiCallFacts.execute_invokes_iff_no_served_entry stringify
           (caching 5000) true (answers (JStr "new"))
           [JObj [("id", JNum 1)]] 5000 5010 (after_first_call (JStr "ok")));
    reflexivity.
Defined.

(** A first call whose operation resolved with the empty string leaves
    an entry that is never served. *)
Lemma falsy_result_is_fetched_again :
  let w := after_first_call (JStr EmptyString) in
  let r := execute stringify (caching 5000) true (answers (JStr EmptyString))
             [JObj [("id", JNum 1)]] 2000 2010 w in
  ~ (invocations (log (fst r)) = S (invocations (log w)) <->
     ~ entry_matches stringify (caching 5000) 2000 (cacheRef w)
         (JArr [JObj [("id", JNum 1)]])).
Proof.
  intros w r [Hinv _]. apply Hinv.
  - vm_compute. reflexivity.
  - exists 1010. vm_compute. repeat split; discriminate.
Qed.

End ApiCallExamples.

(** ** The authentication gate of the Call Controller *)

Module AuthGate.
Import ApiCall.



End AuthGate.

(** ** What [execute] does to the cache entry *)

Module CacheFrame.
Import ApiCall.

Section WithSerializer.

Variable JSON_stringify : JsVal -> string.

(** [execute] either leaves the entry as it was, or caching is
    enabled, the operation was called and resolved, and the entry is
    the fresh one. *)
Lemma execute_cache_cases opts isAuthenticated apiFunction params t_call t_done w :
  let r := execute JSON_stringify opts isAuthenticated apiFunction params
             t_call t_done w in
  cacheRef (fst r) = cacheRef w \/
  (cache opts = true /\
   exists result, call apiFunction params = Resolved result /\
     In (Invoke params) (new_events w (fst r)) /\
     cacheRef (fst r) =
       {| timestamp := Some t_done; entry_data := result;
          entry_params := JArr params |}).
Proof.
  unfold execute.
  destruct (requiresAuth apiFunction && negb isAuthenticated).
  - left. destruct (onError opts); reflexivity.
  - destruct (isCacheValid JSON_stringify opts t_call (cacheRef w) (JArr params)).
    + left. reflexivity.
    + destruct (call apiFunction params) as [result | err] eqn:Hcall.
      * destruct (cache opts) eqn:Hc.
        -- right. split; [reflexivity|]. exists result. split; [reflexivity|].
           unfold new_events.
           destruct (onSuccess opts); simpl; rewrite <- ?app_assoc;
             rewrite skipn_length_app; simpl; auto.
        -- left. destruct (onSuccess opts); reflexivity.
      * left. destruct (onError opts); reflexivity.
Qed.

Lemma execute_rejected_keeps_cache opts isAuthenticated apiFunction params
    t_call t_done w err :
  call apiFunction params = Rejected err ->
  cacheRef (fst (execute JSON_stringify opts isAuthenticated apiFunction params
                   t_call t_done w)) = cacheRef w.
Proof.
  intros Hrej.
  destruct (execute_cache_cases opts isAuthenticated apiFunction params
              t_call t_done w) as [Hsame | (_ & result & Hres & _)].
  - exact Hsame.
  - rewrite Hrej in Hres. discriminate.
Qed.

(** C8: [execute] overwrites the cache entry only when caching is
    enabled and the operation was called and resolved; a cache hit
    returns the cached data and leaves the entry, timestamp included,
    as it was; a call whose operation fails leaves the entry as it
    was, so that any later call that the entry would have served is
    still served from it, without calling the operation. *)
Theorem cache_entry_changes_only_on_success
    opts isAuthenticated apiFunction params t_call t_done w :
  let r := execute JSON_stringify opts isAuthenticated apiFunction params
             t_call t_done w in
  (cacheRef (fst r) <> cacheRef w ->
   cache opts = true /\
   exists result, call apiFunction params = Resolved result /\
     In (Invoke params) (new_events w (fst r)) /\
     cacheRef (fst r) =
       {| timestamp := Some t_done; entry_data := result;
          entry_params := JArr params |}) /\
  (auth_passes isAuthenticated apiFunction ->
   isCacheValid JSON_stringify opts t_call (cacheRef w) (JArr params) = true ->
   snd r = Returned (entry_data (cacheRef w)) /\
   invocations (log (fst r)) = invocations (log w) /\
   cacheRef (fst r) = cacheRef w /\
   timestamp (cacheRef (fst r)) = timestamp (cacheRef w)) /\
  (forall err, call apiFunction params = Rejected err ->
   cacheRef (fst r) = cacheRef w /\
   forall later params' t t', auth_passes isAuthenticated later ->
     isCacheValid JSON_stringify opts t (cacheRef w) (JArr params') = true ->
     let r' := execute JSON_stringify opts isAuthenticated later params' t t' (fst r) in
     snd r' = Returned (entry_data (cacheRef w)) /\
     invocations (log (fst r')) = invocations (log (fst r))).
Proof.
  intros r. split; [|split].
  - intros Hchanged.
    destruct (execute_cache_cases opts isAuthenticated apiFunction params
                t_call t_done w) as [Hsame | Hnew].
    + contradiction.
    + exact Hnew.
  - intros Ha Hv.
    destruct (ApiCallFacts.execute_hit_no_invoke JSON_stringify opts _ _ params
                t_call t_done w Ha Hv) as (H1 & _ & _ & H4 & H5).
    fold r in H1, H4, H5. rewrite H5. auto.
  - intros err Hrej.
    pose proof (execute_rejected_keeps_cache opts isAuthenticated apiFunction
                  params t_call t_done w err Hrej) as Hkeep.
    fold r in Hkeep. split; [exact Hkeep|].
    intros later params' t t' Ha Hv r'.
    rewrite <- Hkeep in Hv.
    destruct (ApiCallFacts.execute_hit_no_invoke JSON_stringify opts _ _ params'
                t t' (fst r) Ha Hv) as (H1 & _ & _ & H4 & _).
    fold r' in H1, H4. rewrite Hkeep in H1. auto.
Qed.

End WithSerializer.

(** A call for other params fails 2 s after the first call; the entry
    of the first call still serves its params afterwards. *)
Lemma cache_entry_changes_only_on_success_witness :
  let w := after_first_call (JStr "ok") in
  let r := execute stringify (caching 5000) true (fails (JError "boom"))
             [JObj [("id", JNum 2)]] 3000 3010 w in
  call (fails (JError "boom")) [JObj [("id", JNum 2)]] = Rejected (JError "boom") /\
  auth_passes true (answers (JStr "new")) /\
  isCacheValid stringify (caching 5000) 4000 (cacheRef w)
    (JArr [JObj [("id", JNum 1)]]) = true /\
  cacheRef (fst r) = cacheRef w /\
  snd (execute stringify (caching 5000) true (answers (JStr "new"))
         [JObj [("id", JNum 1)]] 4000 4010 (fst r)) = Returned (JStr "ok").
Proof.
  intros w r.
  pose proof (cache_entry_changes_only_on_success stringify (caching 5000) true
                (fails (JError "boom")) [JObj [("id", JNum 2)]] 3000 3010 w) as H.
  cbv zeta in H. destruct H as (_ & _ & H).
  destruct (H (JError "boom") eq_refl) as (Hkeep & Hlater).
  split; [reflexivity | split; [reflexivity | split; [reflexivity |]]].
  split; [exact Hkeep |].
  exact (proj1 (Hlater (answers (JStr "new")) [JObj [("id", JNum 1)]] 4000 4010
                  eq_refl eq_refl)).
Defined.

End CacheFrame.

(** ** The Poller *)

Module PollingFacts.
Import Polling.

(** Reduces a goal about a state built from setters to its fields, with
    the activity of its log filtered. *)
Ltac fields :=
  unfold halted, activity in *; simpl;
  rewrite ?filter_app; simpl; rewrite ?app_nil_r.

Lemma clearTimer_timerRef w : timerRef (clearTimer w) = None.
Proof.
  unfold clearTimer. destruct (timerRef w) eqn:Href; simpl; auto.
Qed.

Lemma clearTimer_idem w : clearTimer (clearTimer w) = clearTimer w.
Proof.
  unfold clearTimer at 1. rewrite clearTimer_timerRef. reflexivity.
Qed.

Lemma clearTimer_isPolling w : isPolling (clearTimer w) = isPolling w.
Proof.
  unfold clearTimer. destruct (timerRef w); reflexivity.
Qed.

Lemma clearTimer_activity w :
  activity (log (clearTimer w)) = activity (log w).
Proof.
  unfold clearTimer, activity. destruct (timerRef w); simpl; auto.
  rewrite filter_app. simpl. apply app_nil_r.
Qed.

Lemma filter_all_equal (id : nat) (l : list nat) :
  (forall x, In x l -> x = id) ->
  filter (fun t => negb (Nat.eqb t id)) l = [].
Proof.
  induction l as [|x l IH]; intros Hall; simpl; auto.
  rewrite (Hall x (or_introl eq_refl)), Nat.eqb_refl. simpl.
  apply IH. intros y Hy. apply Hall. right. exact Hy.
Qed.

(** Releasing the timer of [timerRef] leaves no live timer when the
    hook owns all of them. *)
Lemma clearTimer_releases w : owned w -> timers (clearTimer w) = [].
Proof.
  unfold owned, clearTimer. intros Hown.
  destruct (timerRef w) as [id|] eqn:Href; simpl.
  - apply filter_all_equal. intros x Hx.
    specialize (Hown x Hx). congruence.
  - destruct (timers w) as [|x l]; auto.
    specialize (Hown x (or_introl eq_refl)). discriminate.
Qed.

Lemma clearTimer_halted w : halted w -> clearTimer w = w.
Proof.
  intros (_ & Href & _). unfold clearTimer. rewrite Href. reflexivity.
Qed.

Lemma stopPolling_halts w : owned w -> halted (stopPolling w).
Proof.
  intros Hown. unfold stopPolling, halted.
  rewrite clearTimer_isPolling, clearTimer_timerRef.
  repeat split; auto. apply clearTimer_releases. exact Hown.
Qed.

(** The settlement of a failing invocation under [stopOnError]. *)
Lemma settle_rejected_halts cfg err w :
  stopOnError cfg = true -> owned w ->
  let w' := fst (executePoll_settle cfg (Rejected err) w) in
  halted w' /\ activity (log w') = activity (log w) /\ error w' = err.
Proof.
  intros Hstop Hown. unfold executePoll_settle. rewrite Hstop. simpl.
  set (w1 := setIsPolling false (setError err w)).
  assert (Hown1 : owned w1) by exact Hown.
  unfold halted. simpl.
  rewrite clearTimer_isPolling, clearTimer_timerRef, (clearTimer_releases w1 Hown1).
  repeat split; auto.
  - unfold activity. rewrite filter_app. simpl. rewrite app_nil_r.
    fold (activity (log (clearTimer w1))). rewrite clearTimer_activity.
    unfold activity, w1. simpl. rewrite !filter_app. simpl.
    rewrite !app_nil_r. reflexivity.
  - unfold clearTimer. destruct (timerRef w1); reflexivity.
Qed.

Lemma settle_keeps_halted cfg r w :
  halted w ->
  let w' := fst (executePoll_settle cfg r w) in
  halted w' /\ activity (log w') = activity (log w).
Proof.
  intros Hh. pose proof Hh as (Hp & Href & Ht).
  unfold executePoll_settle. destruct r as [result | err]; simpl.
  - fields. auto.
  - destruct (stopOnError cfg); simpl.
    + unfold clearTimer. simpl. rewrite Href. fields. auto.
    + fields. auto.
Qed.

(** Once polling is off, no step of the hook turns it on again, starts
    a timer or runs an invocation. *)
Lemma halted_step cfg w w' :
  halted w -> step cfg w w' ->
  halted w' /\ activity (log w') = activity (log w).
Proof.
  intros Hh Hstep. pose proof Hh as (Hp & Href & Ht).
  destruct Hstep as [w id Hin | w r | w | w | w].
  - rewrite Ht in Hin. destruct Hin.
  - apply settle_keeps_halted. exact Hh.
  - unfold cleanup. rewrite (clearTimer_halted w Hh). unfold effect.
    rewrite Hp. simpl. auto.
  - unfold stopPolling, clearTimer. simpl. rewrite Href. fields. auto.
  - unfold cleanup. rewrite (clearTimer_halted w Hh). auto.
Qed.

Lemma halted_steps cfg w w' :
  halted w -> steps cfg w w' ->
  halted w' /\ activity (log w') = activity (log w).
Proof.
  intros Hh Hsteps. induction Hsteps as [w | w1 w2 w3 Hstep Hrest IH].
  - auto.
  - destruct (halted_step cfg w1 w2 Hh Hstep) as (Hh2 & Hact2).
    destruct (IH Hh2) as (Hh3 & Hact3).
    split; [exact Hh3 | congruence].
Qed.

Lemma begin_keeps_timers cfg w :
  let w' := fst (executePoll_begin cfg w) in
  timers w' = timers w /\ timerRef w' = timerRef w /\ isPolling w' = isPolling w.
Proof.
  unfold executePoll_begin.
  destruct (requiresAuth cfg && negb (isAuthenticated cfg)); simpl; auto.
Qed.

Lemma begin_keeps_owned cfg w : owned w -> owned (fst (executePoll_begin cfg w)).
Proof.
  intros Hown. destruct (begin_keeps_timers cfg w) as (Ht & Href & _).
  unfold owned. rewrite Ht, Href. exact Hown.
Qed.

(** With [stopOnError], a tick of a Poller that owns its timers
    whose operation is called and fails ends with [isPolling] false, the
    timer released and no live timer, having scheduled nothing itself;
    from then on no step of the hook (timer firing, settlement of a
    pending invocation, effect run, [stopPolling], unmount) runs an
    invocation, calls the operation or starts a timer.  The same holds
    from the settlement of a failing invocation that was started
    earlier, such as the immediate one of [startPolling]. *)
Theorem failing_tick_stops_polling cfg err w :
  stopOnError cfg = true ->
  requiresAuth cfg && negb (isAuthenticated cfg) = false ->
  owned w ->
  let w' := fst (executePoll cfg (Rejected err) w) in
  let s' := fst (executePoll_settle cfg (Rejected err) w) in
  (isPolling w' = false /\ timerRef w' = None /\ timers w' = [] /\
   error w' = err /\
   activity (log w') = activity (log w) ++ [Poll; Invoke] /\
   forall w'', steps cfg w' w'' ->
     isPolling w'' = false /\ timers w'' = [] /\
     activity (log w'') = activity (log w')) /\
  (isPolling s' = false /\ timerRef s' = None /\ timers s' = [] /\
   activity (log s') = activity (log w) /\
   forall s'', steps cfg s' s'' ->
     isPolling s'' = false /\ timers s'' = [] /\
     activity (log s'') = activity (log s')).
Proof.
  intros Hstop Hauth Hown w' s'.
  assert (Hforever : forall x, halted x -> forall y, steps cfg x y ->
            isPolling y = false /\ timers y = [] /\
            activity (log y) = activity (log x)).
  { intros x Hx y Hxy. destruct (halted_steps cfg x y Hx Hxy) as ((Hp & _ & Ht) & Ha).
    auto. }
  split.
  - assert (Hw' : w' = fst (executePoll_settle cfg (Rejected err)
                              (fst (executePoll_begin cfg w)))).
    { unfold w', executePoll, executePoll_begin. rewrite Hauth. reflexivity. }
    destruct (settle_rejected_halts cfg err _ Hstop (begin_keeps_owned cfg w Hown))
      as (Hh & Hact & Herr).
    rewrite <- Hw' in Hh, Hact, Herr.
    pose proof Hh as (Hp & Href & Ht).
    repeat split; auto.
    + rewrite Hact. unfold executePoll_begin. rewrite Hauth. unfold activity. simpl.
      rewrite !filter_app. simpl. rewrite !app_nil_r, <- app_assoc. reflexivity.
    + apply (Hforever w' Hh w'' H).
    + apply (Hforever w' Hh w'' H).
    + apply (Hforever w' Hh w'' H).
  - destruct (settle_rejected_halts cfg err w Hstop Hown) as (Hh & Hact & _).
    fold s' in Hh, Hact. pose proof Hh as (Hp & Href & Ht).
    repeat split; auto; apply (Hforever s' Hh s'' H).
Qed.

End PollingFacts.

Module PollingLifecycle.
Import Polling PollingFacts.

Lemma startPolling_from_clear cfg snapshot w :
  timerRef w = None -> timers w = [] ->
  let w' := fst (startPolling cfg snapshot w) in
  isPolling w' = true /\ timerRef w' = Some (next_timer w) /\
  timers w' = [next_timer w].
Proof.
  intros Href Ht. unfold startPolling. rewrite Href, andb_false_r.
  destruct (immediate cfg); [unfold executePoll_begin|];
    destruct (requiresAuth cfg && negb (isAuthenticated cfg)); simpl;
    rewrite Ht; auto.
Qed.

Lemma tidy_of_single w id :
  isPolling w = true -> timerRef w = Some id -> timers w = [id] -> tidy w.
Proof.
  intros Hp Href Ht. split.
  - intros x Hx. rewrite Ht in Hx. destruct Hx as [<- | []]. exact Href.
  - rewrite Hp. discriminate.
Qed.

Lemma tidy_of_clear w : timerRef w = None -> timers w = [] -> tidy w.
Proof.
  intros Href Ht. split; auto.
  intros x Hx. rewrite Ht in Hx. destruct Hx.
Qed.

Lemma startPolling_tidy cfg snapshot w :
  timerRef w = None -> timers w = [] -> tidy (fst (startPolling cfg snapshot w)).
Proof.
  intros Href Ht.
  destruct (startPolling_from_clear cfg snapshot w Href Ht) as (Hp & Hr & Hl).
  exact (tidy_of_single _ _ Hp Hr Hl).
Qed.

Lemma effect_tidy cfg snapshot w :
  owned w -> tidy (fst (effect cfg snapshot (cleanup w))).
Proof.
  intros Hown. unfold effect, cleanup.
  pose proof (clearTimer_timerRef w) as Href.
  pose proof (clearTimer_releases w Hown) as Ht.
  destruct snapshot.
  - rewrite clearTimer_idem.
    apply (startPolling_tidy cfg true (clearTimer w)); assumption.
  - apply (tidy_of_clear (clearTimer w)); assumption.
Qed.

Lemma step_tidy cfg w w' : tidy w -> step cfg w w' -> tidy w'.
Proof.
  intros (Hown & Hoff) Hstep.
  destruct Hstep as [w id Hin | w r | w | w | w].
  - destruct (begin_keeps_timers cfg w) as (Ht & Href & Hp).
    unfold tidy, owned. rewrite Ht, Href, Hp. auto.
  - unfold executePoll_settle. destruct r as [result | err]; simpl.
    + split; assumption.
    + destruct (stopOnError cfg); simpl.
      * set (w1 := setIsPolling false (setError err w)).
        assert (Hown1 : owned w1) by exact Hown.
        apply (tidy_of_clear (setLoading false (clearTimer w1))); simpl.
        -- apply clearTimer_timerRef.
        -- apply clearTimer_releases. exact Hown1.
      * split; assumption.
  - apply effect_tidy. exact Hown.
  - destruct (stopPolling_halts w Hown) as (_ & Href & Ht).
    apply tidy_of_clear; assumption.
  - apply tidy_of_clear; [apply clearTimer_timerRef | apply clearTimer_releases; exact Hown].
Qed.

(** The hook never leaks a timer: in every state it reaches, the live
    timers are owned through [timerRef]. *)
Lemma owned_without_ref w : owned w -> timerRef w = None -> timers w = [].
Proof.
  intros Hown Href. destruct (timers w) as [|x l] eqn:Ht; auto.
  specialize (Hown x). rewrite Ht in Hown.
  specialize (Hown (or_introl eq_refl)). congruence.
Qed.

Lemma reachable_tidy cfg w : reachable cfg w -> tidy w.
Proof.
  induction 1 as [| w w' _ IH Hstep | w snapshot _ IH | w snapshot _ IH Hside].
  - unfold mount. apply (effect_tidy cfg (isPolling (initial cfg)) (initial cfg)).
    intros x Hx. destruct Hx.
  - exact (step_tidy cfg w w' IH Hstep).
  - apply effect_tidy. exact (proj1 IH).
  - pose proof IH as (Hown & Hoff).
    destruct (timerRef w) as [id|] eqn:Href.
    + destruct snapshot; [| specialize (Hside eq_refl); discriminate].
      unfold startPolling. rewrite Href. simpl. exact IH.
    + apply startPolling_tidy; auto. apply owned_without_ref; assumption.
Qed.

Lemma reachable_owned cfg w : reachable cfg w -> owned w.
Proof.
  intros Hr. exact (proj1 (reachable_tidy cfg w Hr)).
Qed.

(** C10: with [immediate] the state starts with [isPolling] true and
    the mount effect alone, without a call of [startPolling] by the
    user, starts the interval timer and runs one invocation; without
    [immediate] the state starts with [isPolling] false, the mount
    effect does nothing, no step of the hook starts a timer or runs an
    invocation, and a call of [startPolling] starts the timer. *)
Theorem mount_starts_polling_iff_immediate cfg :
  (immediate cfg = true ->
   isPolling (initial cfg) = true /\
   let w := fst (mount cfg) in
   isPolling w = true /\ timerRef w = Some 0%nat /\ timers w = [0%nat] /\
   polls (log w) = 1%nat /\
   activity (log w) =
     (if requiresAuth cfg && negb (isAuthenticated cfg)
      then [Poll; SetInterval 0] else [Poll; Invoke; SetInterval 0])) /\
  (immediate cfg = false ->
   isPolling (initial cfg) = false /\
   mount cfg = (initial cfg, false) /\
   (forall w, steps cfg (fst (mount cfg)) w ->
      isPolling w = false /\ timers w = [] /\ activity (log w) = []) /\
   (forall w, steps cfg (fst (mount cfg)) w ->
      let w' := fst (startPolling cfg (isPolling w) w) in
      isPolling w' = true /\ timers w' = [next_timer w] /\
      timerRef w' = Some (next_timer w) /\
      activity (log w') = [SetInterval (next_timer w)])).
Proof.
  split; intros Him.
  - unfold mount, initial, effect, startPolling, executePoll_begin, clearTimer.
    rewrite Him. simpl. rewrite ?Him.
    destruct (requiresAuth cfg && negb (isAuthenticated cfg)); simpl;
      repeat split; reflexivity.
  - assert (Hmount : mount cfg = (initial cfg, false)).
    { unfold mount, effect, initial. rewrite Him. reflexivity. }
    assert (Hh : halted (initial cfg)).
    { unfold halted, initial. simpl. auto. }
    rewrite Hmount. simpl fst.
    split; [unfold initial; simpl; exact Him | split; [reflexivity | split]].
    + intros w Hsteps.
      destruct (halted_steps cfg _ w Hh Hsteps) as ((Hp & _ & Ht) & Ha).
      auto.
    + intros w Hsteps w'.
      destruct (halted_steps cfg _ w Hh Hsteps) as ((Hp & Href & Ht) & Ha).
      destruct (startPolling_from_clear cfg (isPolling w) w Href Ht)
        as (Hp' & Href' & Ht').
      fold w' in Hp', Href', Ht'. repeat split; auto.
      unfold w', startPolling. rewrite Href, andb_false_r, Him. simpl.
      unfold activity in *. rewrite !filter_app, Ha. reflexivity.
Qed.

Lemma mount_starts_polling_iff_immediate_witness :
  immediate (polling true false) = true /\
  immediate (polling false false) = false /\
  timers (fst (mount (polling true false))) = [0%nat] /\
  polls (log (fst (mount (polling true false)))) = 1%nat /\
  mount (polling false false) = (initial (polling false false), false).
Proof.
  pose proof (proj1 (mount_starts_polling_iff_immediate (polling true false)) eq_refl)
    as (_ & _ & _ & Ht & Hn & _).
  pose proof (proj2 (mount_starts_polling_iff_immediate (polling false false)) eq_refl)
    as (_ & Hm & _).
  repeat split; assumption.
Defined.

(** A mounted Poller with [stopOnError] whose first timer tick fails. *)
Lemma failing_tick_stops_polling_witness :
  let cfg := polling true true in
  let w := fst (executePoll_settle cfg (Resolved (JNum 1)) (fst (mount cfg))) in
  stopOnError cfg = true /\
  requiresAuth cfg && negb (isAuthenticated cfg) = false /\
  owned w /\
  timers w = [0%nat] /\
  timers (fst (executePoll cfg (Rejected (JError "down")) w)) = [] /\
  isPolling (fst (executePoll cfg (Rejected (JError "down")) w)) = false.
Proof.
  intros cfg w.
  assert (Hown : owned w).
  { intros x Hx. vm_compute in Hx. destruct Hx as [<- | []]. reflexivity. }
  pose proof (failing_tick_stops_polling cfg (JError "down") w eq_refl eq_refl Hown)
    as ((Hp & _ & Ht & _) & _).
  repeat split; auto.
Defined.

End PollingLifecycle.

(** ** The Paginator *)

Module InfiniteScrollFacts.
Import InfiniteScroll.

Lemma fetchPage_skips opts api snap n w :
  loading snap || negb (hasMore snap) = true ->
  fetchPage opts api snap n w = (w, Returned JUndefined).
Proof.
  intros Hguard. unfold fetchPage. rewrite Hguard. reflexivity.
Qed.

Lemma fetchPage_runs opts api snap n response w :
  loading snap = false -> hasMore snap = true ->
  api (build_params opts n) = PageResolved response ->
  fetchPage opts api snap (Some n) w =
  (setLoading false
     (receive opts snap n response
        (emit (Invoke (build_params opts n))
           (setError JNull (setLoading true w)))),
   Returned (newItems_value response)).
Proof.
  intros Hl Hm Hres. unfold fetchPage. rewrite Hl, Hm, Hres. reflexivity.
Qed.

Lemma fetchPage_fails opts api snap n err w :
  loading snap = false -> hasMore snap = true ->
  api (build_params opts n) = PageRejected err ->
  fetchPage opts api snap (Some n) w =
  (setLoading false
     (setError err
        (emit (Invoke (build_params opts n))
           (setError JNull (setLoading true w)))),
   Thrown err).
Proof.
  intros Hl Hm Hres. unfold fetchPage. rewrite Hl, Hm, Hres. reflexivity.
Qed.

Lemma nonempty_some l : l <> [] -> nonempty (Some l) = true.
Proof.
  intros Hne. unfold nonempty, len. destruct l as [|x l]; [contradiction|].
  simpl List.length. apply Z.gtb_lt. lia.
Qed.

Lemma len_app l l' : len (l ++ l') = len l + len l'.
Proof.
  unfold len. rewrite length_app. lia.
Qed.

(** What a non-empty page does to the state. *)
Lemma receive_page opts snap n response l w :
  newItems_of response = Some l -> l <> [] ->
  let w' := receive opts snap n response w in
  items w' = (if n =? initialPage opts then l else items w ++ l) /\
  page w' = n /\
  hasMore w' =
    (if number_truthy (total_of response)
     then match total_of response with
          | Some t => len (items snap) + len l <? t
          | None => false
          end
     else len l >=? pageSize opts) /\
  loading w' = loading w /\ error w' = error w.
Proof.
  intros Hnew Hne. unfold receive. rewrite Hnew, (nonempty_some l Hne). simpl.
  destruct (total_of response) as [t|]; simpl;
    [destruct (negb (t =? 0))|]; destruct (n =? initialPage opts); simpl; auto.
Qed.

(** What an empty or missing page does to the state. *)
Lemma receive_nothing opts snap n response w :
  nonempty (newItems_of response) = false ->
  receive opts snap n response w = setHasMore false w.
Proof.
  intros Hempty. unfold receive. rewrite Hempty. reflexivity.
Qed.

(** The same three pages through the callbacks the hook returns. *)
Example three_pages_through_the_hook :
  let api := backend (catalogue 25) true in
  let w1 := fst (call (refresh default_options api) (initial default_options)) in
  let w2 := fst (call (loadMore default_options api) w1) in
  let w3 := fst (call (loadMore default_options api) w2) in
  map (fun w => (len (items w), hasMore w, page w)) [w1; w2; w3] =
  [(10, true, 1); (20, true, 2); (25, false, 3)] /\
  call (loadMore default_options api) w3 = (w3, Returned JUndefined).
Proof. vm_compute. split; reflexivity. Qed.

Example three_pages_of_25 :
  map (fun w => (len (items w), hasMore w, page w))
      [after_pages 1; after_pages 2; after_pages 3] =
  [(10, true, 1); (20, true, 2); (25, false, 3)].
Proof. vm_compute. reflexivity. Qed.

(** Where [fetchPage] recomputes [hasMore] from the lengths it sees:
    after a [fetchPage] that runs and receives
    a non-empty page, with a non-zero total [hasMore] is (length of the
    items of the calling render + length of the page) < total, which is
    (length of the accumulated items after the fetch) < total when the
    page is appended or the list was empty; without a non-zero total
    [hasMore] is (length of the page) >= pageSize; an empty page sets
    [hasMore] to false.  With pageSize 10 and total 25, fetching pages
    1, 2, 3 in order gives lengths 10, 20, 25 and [hasMore] true, true,
    false. *)
Theorem fetchPage_recomputes_hasMore :
  (forall opts api n response w,
     loading w = false -> hasMore w = true ->
     api (build_params opts n) = PageResolved response ->
     let w' := fst (fetch opts api n w) in
     (forall l t, newItems_of response = Some l -> l <> [] ->
        total_of response = Some t -> t <> 0 ->
        hasMore w' = (len (items w) + len l <? t) /\
        (n <> initialPage opts \/ items w = [] ->
         hasMore w' = (len (items w') <? t))) /\
     (forall l, newItems_of response = Some l -> l <> [] ->
        number_truthy (total_of response) = false ->
        hasMore w' = (len l >=? pageSize opts)) /\
     (nonempty (newItems_of response) = false -> hasMore w' = false)) /\
  (let w1 := fst (fetch default_options (backend (catalogue 25) true) 1
                    (initial default_options)) in
   let w2 := fst (fetch default_options (backend (catalogue 25) true) 2 w1) in
   let w3 := fst (fetch default_options (backend (catalogue 25) true) 3 w2) in
   (len (items w1), hasMore w1) = (10, true) /\
   (len (items w2), hasMore w2) = (20, true) /\
   (len (items w3), hasMore w3) = (25, false)).
Proof.
  split.
  - intros opts api n response w Hl Hm Hres w'.
    unfold w', fetch, call. rewrite (fetchPage_runs opts api w n response w Hl Hm Hres).
    simpl fst.
    split; [|split].
    + intros l t Hnew Hne Htot Hnz.
      destruct (receive_page opts w n response l
                  (emit (Invoke (build_params opts n))
                     (setError JNull (setLoading true w))) Hnew Hne)
        as (Hitems & _ & Hmore & _).
      simpl in Hitems, Hmore |- *. rewrite Htot in Hmore. simpl in Hmore.
      assert (Htr : negb (t =? 0) = true)
        by (apply negb_true_iff, Z.eqb_neq; exact Hnz).
      rewrite Htr in Hmore. split; [exact Hmore|].
      intros Hcase. rewrite Hmore, Hitems.
      destruct (Z.eqb_spec n (initialPage opts)) as [Heq | Hneq].
      * destruct Hcase as [Hn | Hnil]; [contradiction|].
        rewrite Hnil. reflexivity.
      * rewrite len_app. reflexivity.
    + intros l Hnew Hne Hfalsy.
      destruct (receive_page opts w n response l
                  (emit (Invoke (build_params opts n))
                     (setError JNull (setLoading true w))) Hnew Hne)
        as (_ & _ & Hmore & _).
      simpl in Hmore |- *. rewrite Hfalsy in Hmore. exact Hmore.
    + intros Hempty. rewrite (receive_nothing _ _ _ _ _ Hempty). reflexivity.
  - vm_compute. repeat split; reflexivity.
Qed.

Lemma fetchPage_recomputes_hasMore_witness :
  let w := after_pages 1 in
  let api := backend (catalogue 25) true in
  loading w = false /\ hasMore w = true /\
  api (build_params default_options 2) =
    PageResolved (RespObject (Some (slice (catalogue 25) 2 10)) None None
                    (Some 25) None None) /\
  hasMore (fst (fetch default_options api 2 w)) =
    (len (items (fst (fetch default_options api 2 w))) <? 25).
Proof.
  intros w api.
  split; [reflexivity | split; [reflexivity | split; [reflexivity |]]].
  destruct (proj1 fetchPage_recomputes_hasMore default_options api 2 _ w
              eq_refl eq_refl eq_refl) as (Hknown & _ & _).
  destruct (Hknown (slice (catalogue 25) 2 10) 25 eq_refl) as (_ & Hafter).
  - vm_compute. discriminate.
  - reflexivity.
  - lia.
  - apply Hafter. left. vm_compute. discriminate.
Defined.

(** An empty page ends the paging: with ten items accumulated and a total of 25,
    a second page that comes back empty sets [hasMore] to false although
    the accumulated length, 10, is below the total. *)
Lemma empty_page_ends_paging_below_total :
  let w2 := fst (fetch default_options (emptied 25) 2 (after_pages 1)) in
  total_of (RespObject (Some []) None None (Some 25) None None) = Some 25 /\
  len (items w2) = 10 /\
  hasMore w2 <> (len (items w2) <? 25).
Proof.
  vm_compute. repeat split; discriminate.
Qed.

(** The comparison with the total uses the length of the items of the
    calling render also when the page replaces them: a refresh after two
    pages compares 20 + 10 with the total 25. *)
Example refresh_compares_with_replaced_items :
  let w := fst (call (refresh default_options (backend (catalogue 25) true))
                  (after_pages 2)) in
  len (items w) = 10 /\ hasMore w = false.
Proof. vm_compute. split; reflexivity. Qed.

End InfiniteScrollFacts.

Module RefreshFacts.
Import InfiniteScroll InfiniteScrollFacts.

Lemma fetchPage_keeps_idle opts api snap n w :
  loading w = false -> loading (fst (fetchPage opts api snap n w)) = false.
Proof.
  intros Hl. unfold fetchPage.
  destruct (loading snap || negb (hasMore snap)); [exact Hl|].
  destruct (api _); reflexivity.
Qed.

Lemma loadMore_keeps_idle opts api w :
  loading w = false -> loading (fst (call (loadMore opts api) w)) = false.
Proof.
  intros Hl. unfold call, loadMore.
  destruct (negb (loading w) && hasMore w); [|exact Hl].
  apply fetchPage_keeps_idle. exact Hl.
Qed.

(** Calls of [loadMore] that run to their end leave the Paginator
    idle. *)
Lemma loadMore_times_idle opts api k : forall w,
  loading w = false -> loading (loadMore_times opts api k w) = false.
Proof.
  induction k as [|k IH]; intros w Hl; simpl.
  - exact Hl.
  - apply IH. apply loadMore_keeps_idle. exact Hl.
Qed.

Lemma refresh_runs opts api response w :
  loading w = false -> hasMore w = true ->
  api (build_params opts (initialPage opts)) = PageResolved response ->
  call (refresh opts api) w =
  (setLoading false
     (receive opts w (initialPage opts) response
        (emit (Invoke (build_params opts (initialPage opts)))
           (setError JNull (setLoading true (setHasMore true w))))),
   Returned (newItems_value response)).
Proof.
  intros Hl Hm Hres. unfold call, refresh.
  apply fetchPage_runs; assumption.
Qed.

(** A refresh that receives a non-empty page: after any number of
    [loadMore] calls on an
    idle Paginator, when [hasMore] is true in the render that [refresh]
    belongs to, [refresh()] sets [hasMore] to true and calls the
    operation for [initialPage]; when the page that comes back is not
    empty the accumulated items are exactly that page, replaced and not
    appended, and [page] is [initialPage]. *)
Theorem refresh_replaces_items opts earlier api k w0 response l :
  let w := loadMore_times opts earlier k w0 in
  loading w0 = false ->
  hasMore w = true ->
  api (build_params opts (initialPage opts)) = PageResolved response ->
  newItems_of response = Some l -> l <> [] ->
  let r := call (refresh opts api) w in
  items (fst r) = l /\
  page (fst r) = initialPage opts /\
  snd r = Returned (JArr l) /\
  invocations (log (fst r)) = S (invocations (log w)) /\
  exists rest,
    new_events w (fst r) =
      SetHasMore true :: SetLoading true :: SetError JNull
      :: Invoke (build_params opts (initialPage opts)) :: SetItems l :: rest.
Proof.
  intros w Hidle Hm Hres Hnew Hne r.
  pose proof (loadMore_times_idle opts earlier k w0 Hidle) as Hl. fold w in Hl.
  unfold r. rewrite (refresh_runs opts api response w Hl Hm Hres). simpl fst. simpl snd.
  set (w1 := emit (Invoke (build_params opts (initialPage opts)))
               (setError JNull (setLoading true (setHasMore true w)))).
  destruct (receive_page opts w (initialPage opts) response l w1 Hnew Hne)
    as (Hitems & Hpage & _).
  rewrite Z.eqb_refl in Hitems.
  repeat split.
  - exact Hitems.
  - exact Hpage.
  - unfold newItems_value. rewrite Hnew. reflexivity.
  - unfold receive. rewrite Hnew, (nonempty_some l Hne), Z.eqb_refl.
    unfold invocations.
    destruct (total_of response) as [t|]; [destruct (number_truthy (Some t))|];
      simpl; rewrite !filter_length_snoc; simpl; lia.
  - unfold receive, new_events. rewrite Hnew, (nonempty_some l Hne), Z.eqb_refl.
    destruct (total_of response) as [t|]; [destruct (number_truthy (Some t))|];
      simpl; rewrite <- !app_assoc; rewrite skipn_length_app; simpl;
      eexists; reflexivity.
Qed.

Lemma refresh_replaces_items_witness :
  let api := backend (catalogue 25) true in
  let w := loadMore_times default_options api 1 (after_pages 1) in
  loading (after_pages 1) = false /\ hasMore w = true /\
  len (items w) = 20 /\
  items (fst (call (refresh default_options api) w)) = catalogue 10.
Proof.
  intros api w.
  split; [reflexivity | split; [reflexivity | split; [reflexivity |]]].
  refine (proj1 (refresh_replaces_items default_options api api 1 (after_pages 1)
                   (RespObject (Some (catalogue 10)) None None (Some 25) None None)
                   (catalogue 10) eq_refl eq_refl eq_refl eq_refl _)).
  vm_compute. discriminate.
Defined.


(** When [hasMore] is false in the render that [refresh] belongs to,
    the guard of [fetchPage] reads that value, not the one [refresh] has
    just set: the operation is not called and the items stay. *)
Lemma refresh_after_exhaustion_skips_fetch opts api w :
  hasMore w = false ->
  call (refresh opts api) w = (setHasMore true w, Returned JUndefined).
Proof.
  intros Hm. unfold call, refresh. apply fetchPage_skips.
  rewrite Hm. apply orb_true_r.
Qed.

Example refresh_after_last_page :
  let r := call (refresh default_options (backend (catalogue 25) true))
             (after_pages 3) in
  hasMore (after_pages 3) = false /\
  invocations (log (fst r)) = invocations (log (after_pages 3)) /\
  len (items (fst r)) = 25 /\ hasMore (fst r) = true.
Proof. vm_compute. repeat split; reflexivity. Qed.

(** C9: a [fetchPage] that runs and receives an empty page, or a
    response without an item list, calls [setLoading], [setError] and
    [setHasMore(false)] and nothing else: [items] and [page] are left as
    they were, also when the page fetched is [initialPage], so a
    [refresh] against a collection that is now empty keeps the items
    and the page number. *)
Theorem empty_page_changes_only_hasMore opts api response :
  nonempty (newItems_of response) = false ->
  (forall snap n w,
     loading snap = false -> hasMore snap = true ->
     api (build_params opts n) = PageResolved response ->
     let w' := fst (fetchPage opts api snap (Some n) w) in
     new_events w w' =
       [SetLoading true; SetError JNull; Invoke (build_params opts n);
        SetHasMore false; SetLoading false] /\
     items w' = items w /\ page w' = page w /\
     hasMore w' = false /\ loading w' = false /\ error w' = JNull) /\
  (forall w,
     loading w = false -> hasMore w = true ->
     api (build_params opts (initialPage opts)) = PageResolved response ->
     let w' := fst (call (refresh opts api) w) in
     items w' = items w /\ page w' = page w /\ hasMore w' = false).
Proof.
  intros Hempty. split.
  - intros snap n w Hl Hm Hres w'. unfold w'.
    rewrite (fetchPage_runs opts api snap n response w Hl Hm Hres).
    rewrite (receive_nothing _ _ _ _ _ Hempty).
    unfold new_events. simpl. rewrite <- !app_assoc, skipn_length_app.
    repeat split; reflexivity.
  - intros w Hl Hm Hres w'. unfold w'.
    rewrite (refresh_runs opts api response w Hl Hm Hres).
    rewrite (receive_nothing _ _ _ _ _ Hempty).
    repeat split; reflexivity.
Qed.

Lemma empty_page_changes_only_hasMore_witness :
  let gone := RespObject (Some []) None None (Some 25) None None in
  let w := after_pages 2 in
  nonempty (newItems_of gone) = false /\
  loading w = false /\ hasMore w = true /\
  (let w' := fst (call (refresh default_options (emptied 25)) w) in
   items w' = items w /\ page w' = 2 /\ hasMore w' = false).
Proof.
  intros gone w.
  split; [reflexivity | split; [reflexivity | split; [reflexivity |]]].
  exact (proj2 (empty_page_changes_only_hasMore default_options (emptied 25) gone
                  eq_refl) w eq_refl eq_refl eq_refl).
Defined.

End RefreshFacts.

(** ** The REST client *)

Module ApiFacts.
Import Api.

Lemma ok_204 r : resp_status r = 204 -> ok r = true.
Proof.
  intros H. unfold ok. rewrite H. reflexivity.
Qed.

Lemma not_ok_special r : special (resp_status r) = true -> ok r = false.
Proof.
  unfold special, ok. intros H.
  repeat (apply orb_true_iff in H; destruct H as [H | H]);
    apply Z.eqb_eq in H; rewrite H; reflexivity.
Qed.

Lemma apiRequest_read r token d :
  resp_status r <> 204 -> read_body r = Some d ->
  apiRequest (Responded r) token =
  if negb (ok r) then
    if resp_status r =? 401 then
      (None, Raise (new_APIError (JStr "Unauthorized: Please log in again") 401 d))
    else if resp_status r =? 403 then
      (token, Raise (new_APIError (JStr "Forbidden: You do not have permission") 403 d))
    else if resp_status r =? 404 then
      (token,
       Raise (new_APIError (JStr "Not found: The requested resource does not exist")
                404 d))
    else if resp_status r =? 429 then
      (token,
       Raise (new_APIError (JStr "Too many requests: Please try again later") 429 d))
    else if isJson r then
      match get_prop d "message" with
      | None => (token, Raise network_error)
      | Some m =>
          (token,
           Raise (new_APIError (if truthy m then m else default_message)
                    (resp_status r) d))
      end
    else (token, Raise (new_APIError default_message (resp_status r) d))
  else (token, Ok d).
Proof.
  intros Hne Hbody. unfold apiRequest.
  destruct (Z.eqb_spec (resp_status r) 204) as [Heq | _]; [contradiction|].
  rewrite Hbody. reflexivity.
Qed.

(** The handling of a response: a 204 response yields [{success: true}];
    when the body of the response can be read, a 401 raises the
    authentication error and removes the stored token, 403, 404 and 429
    raise the forbidden, not-found and rate-limited errors and keep the
    token, any other status outside 200-299 raises an error with that
    status whose message is the truthy [message] field of a JSON body
    and a default message otherwise, and a status in 200-299 yields the
    body; a failure of [fetch] raises an error with status 0, and so
    does a body that cannot be read. *)
Theorem apiRequest_status_handling :
  (forall r token, resp_status r = 204 ->
     apiRequest (Responded r) token = (token, Ok (JObj [("success", JBool true)]))) /\
  (forall r token d, read_body r = Some d ->
     (resp_status r = 401 ->
      apiRequest (Responded r) token =
      (None, Raise {| message := JStr "Unauthorized: Please log in again";
                      status := 401; data := d |})) /\
     (resp_status r = 403 ->
      apiRequest (Responded r) token =
      (token, Raise {| message := JStr "Forbidden: You do not have permission";
                       status := 403; data := d |})) /\
     (resp_status r = 404 ->
      apiRequest (Responded r) token =
      (token,
       Raise {| message := JStr "Not found: The requested resource does not exist";
                status := 404; data := d |})) /\
     (resp_status r = 429 ->
      apiRequest (Responded r) token =
      (token, Raise {| message := JStr "Too many requests: Please try again later";
                       status := 429; data := d |})) /\
     (ok r = false -> special (resp_status r) = false ->
      forall m, isJson r = true -> get_prop d "message" = Some m -> truthy m = true ->
      apiRequest (Responded r) token =
      (token, Raise {| message := JStr (to_string m); status := resp_status r;
                       data := d |})) /\
     (ok r = false -> special (resp_status r) = false ->
      isJson r = false \/
      (exists m, get_prop d "message" = Some m /\ truthy m = false) ->
      apiRequest (Responded r) token =
      (token, Raise {| message := default_message; status := resp_status r;
                       data := d |})) /\
     (ok r = true -> resp_status r <> 204 ->
      apiRequest (Responded r) token = (token, Ok d))) /\
  (forall e token,
     apiRequest (NetworkFailure e) token = (token, Raise network_error)) /\
  (forall r token, resp_status r <> 204 -> read_body r = None ->
     apiRequest (Responded r) token = (token, Raise network_error)) /\
  status network_error = 0.
Proof.
  split; [|split; [|split; [|split]]].
  - intros r token H. unfold apiRequest. rewrite H. reflexivity.
  - intros r token d Hbody.
    pose proof (fun Hne => apiRequest_read r token d Hne Hbody) as Hread.
    assert (Hsp : forall st, special st = true -> resp_status r = st ->
              resp_status r <> 204 /\ ok r = false).
    { intros st Hst Heq. split.
      - rewrite Heq. intros ->. discriminate.
      - apply not_ok_special. rewrite Heq. exact Hst. }
    repeat split.
    + intros H. destruct (Hsp 401 eq_refl H) as (Hne & Hok).
      rewrite (Hread Hne), Hok, H. reflexivity.
    + intros H. destruct (Hsp 403 eq_refl H) as (Hne & Hok).
      rewrite (Hread Hne), Hok, H. reflexivity.
    + intros H. destruct (Hsp 404 eq_refl H) as (Hne & Hok).
      rewrite (Hread Hne), Hok, H. reflexivity.
    + intros H. destruct (Hsp 429 eq_refl H) as (Hne & Hok).
      rewrite (Hread Hne), Hok, H. reflexivity.
    + intros Hok Hns m Hj Hm Htr.
      rewrite Hread
        by (intros H204; rewrite (ok_204 r H204) in Hok; discriminate).
      rewrite Hok. simpl. unfold special in Hns.
      apply orb_false_iff in Hns. destruct Hns as (Hns & H429).
      apply orb_false_iff in Hns. destruct Hns as (Hns & H404).
      apply orb_false_iff in Hns. destruct Hns as (H401 & H403).
      rewrite H401, H403, H404, H429, Hj, Hm. unfold new_APIError. rewrite Htr, Htr.
      simpl.
      reflexivity.
    + intros Hok Hns Hcase.
      rewrite Hread
        by (intros H204; rewrite (ok_204 r H204) in Hok; discriminate).
      rewrite Hok. simpl. unfold special in Hns.
      apply orb_false_iff in Hns. destruct Hns as (Hns & H429).
      apply orb_false_iff in Hns. destruct Hns as (Hns & H404).
      apply orb_false_iff in Hns. destruct Hns as (H401 & H403).
      rewrite H401, H403, H404, H429.
      destruct Hcase as [Hj | (m & Hm & Hfalsy)].
      * rewrite Hj. reflexivity.
      * destruct (isJson r); [rewrite Hm, Hfalsy|]; reflexivity.
    + intros Hok Hne. rewrite (Hread Hne), Hok. reflexivity.
  - intros e token. reflexivity.
  - intros r token Hne Hbody. unfold apiRequest.
    destruct (Z.eqb_spec (resp_status r) 204) as [Heq | _]; [contradiction|].
    rewrite Hbody. reflexivity.
  - reflexivity.
Qed.

Lemma apiRequest_status_handling_witness :
  let r := json_response 401 (Some (JObj [("detail", JStr "expired")])) "{...}" in
  let e := json_response 500 (Some (JObj [("message", JStr "db down")])) "{...}" in
  read_body r = Some (JObj [("detail", JStr "expired")]) /\
  resp_status r = 401 /\
  fst (apiRequest (Responded r) (Some "jwt")) = None /\
  apiRequest (Responded e) (Some "jwt") =
    (Some "jwt", Raise {| message := JStr "db down"; status := 500;
                          data := JObj [("message", JStr "db down")] |}).
Proof.
  intros r e.
  destruct apiRequest_status_handling as (_ & Hread & _).
  destruct (Hread r (Some "jwt") _ eq_refl) as (H401 & _).
  destruct (Hread e (Some "jwt") _ eq_refl) as (_ & _ & _ & _ & Hgeneric & _).
  split; [reflexivity | split; [reflexivity | split]].
  - rewrite (H401 eq_refl). reflexivity.
  - exact (Hgeneric eq_refl eq_refl (JStr "db down") eq_refl eq_refl eq_refl).
Defined.

(** C7 fails on the code at a 401 response announced as JSON whose body
    is empty: [response.json()] rejects before the status is looked at,
    the catch-all turns that into the error of status 0 that says the
    server could not be reached, and the stored token stays. *)
Lemma unreadable_401_keeps_token :
  let r := json_response 401 None EmptyString in
  resp_status r = 401 /\
  apiRequest (Responded r) (Some "jwt") = (Some "jwt", Raise network_error) /\
  fst (apiRequest (Responded r) (Some "jwt")) <> None /\
  status network_error <> 401.
Proof.
  vm_compute. repeat split; discriminate.
Qed.

End ApiFacts.

(** ** Propagation of failures *)

Module Propagation.




End Propagation.

(** * Further properties *)

(** ** The Call Controller: invalidation, round trips, callbacks *)

Module ApiCallMore.
Import ApiCall.

Section WithSerializer.

Variable JSON_stringify : JsVal -> string.

Lemma empty_entry_invalid opts now params :
  isCacheValid JSON_stringify opts now empty_entry params = false.
Proof.
  unfold isCacheValid. destruct (cache opts); reflexivity.
Qed.

(** [reset] and [clearCache] both empty the cache entry, so that the next
    call that passes the gate calls the operation whatever its time and
    params; [clearCache] leaves [data], [loading], [error] and the log as
    they were, [reset] sets them to null, false, null. *)
Theorem reset_and_clearCache_invalidate
    opts isAuthenticated apiFunction params t_call t_done w :
  auth_passes isAuthenticated apiFunction ->
  (data (reset w) = JNull /\ loading (reset w) = false /\ error (reset w) = JNull /\
   cacheRef (reset w) = empty_entry /\
   invocations (log (fst (execute JSON_stringify opts isAuthenticated apiFunction
                            params t_call t_done (reset w)))) =
   S (invocations (log (reset w)))) /\
  (data (clearCache w) = data w /\ loading (clearCache w) = loading w /\
   error (clearCache w) = error w /\ log (clearCache w) = log w /\
   cacheRef (clearCache w) = empty_entry /\
   invocations (log (fst (execute JSON_stringify opts isAuthenticated apiFunction
                            params t_call t_done (clearCache w)))) =
   S (invocations (log (clearCache w)))).
Proof.
  intros Ha. split.
  - repeat split.
    apply (ApiCallFacts.execute_miss_invokes JSON_stringify opts isAuthenticated
             apiFunction params t_call t_done (reset w) Ha).
    apply empty_entry_invalid.
  - repeat split.
    apply (ApiCallFacts.execute_miss_invokes JSON_stringify opts isAuthenticated
             apiFunction params t_call t_done (clearCache w) Ha).
    apply empty_entry_invalid.
Qed.




End WithSerializer.

End ApiCallMore.

Module CallbackFacts.
Import ApiCall.

Ltac each_event :=
  repeat match goal with
         | H : In _ _ |- _ => simpl in H
         | H : _ \/ _ |- _ => destruct H as [H | H]
         | H : False |- _ => destruct H
         | H : OnSuccess _ = OnSuccess _ |- _ => injection H as <-
         | H : OnError _ = OnError _ |- _ => injection H as <-
         | H : @eq Event _ _ |- _ => discriminate H
         end.

(** When the callbacks return, a call of [execute] calls at most one of
    the two, at most once: [onSuccess] only with the value the operation resolved with,
    [onError] only with the error of the gate or the error the operation
    rejected with; a call served from the cache calls neither. *)
Theorem callbacks_fire_at_most_once
    (JSON_stringify : JsVal -> string) opts isAuthenticated apiFunction params
    t_call t_done w :
  let r := execute JSON_stringify opts isAuthenticated apiFunction params
             t_call t_done w in
  let events := new_events w (fst r) in
  (Runs.count_callbacks events <= 1)%nat /\
  (requiresAuth apiFunction && negb isAuthenticated = false ->
   isCacheValid JSON_stringify opts t_call (cacheRef w) (JArr params) = true ->
   Runs.count_callbacks events = 0%nat) /\
  (forall v, In (OnSuccess v) events ->
     onSuccess opts = true /\ call apiFunction params = Resolved v /\
     snd r = Returned v) /\
  (forall e, In (OnError e) events ->
     onError opts = true /\
     ((requiresAuth apiFunction && negb isAuthenticated = true /\ e = authError /\
       snd r = Returned JUndefined) \/
      (call apiFunction params = Rejected e /\ snd r = Thrown e))).
Proof.
  unfold execute, new_events.
  destruct (requiresAuth apiFunction && negb isAuthenticated);
    [| destruct (isCacheValid JSON_stringify opts t_call (cacheRef w) (JArr params));
       [| destruct (call apiFunction params) as [result | err] eqn:Hcall;
          destruct (cache opts) ] ];
    destruct (onSuccess opts), (onError opts); simpl;
    rewrite <- ?app_assoc; rewrite skipn_length_app;
    unfold Runs.count_callbacks; simpl;
    (split; [lia | split; [try discriminate; auto | split]]);
    intros x Hin; each_event;
    try (split; [reflexivity |]);
    first [ split; reflexivity
          | left; repeat split; reflexivity
          | right; split; reflexivity ].
Qed.


End CallbackFacts.

Module ApiCallMoreExamples.
Import ApiCall.

Lemma reset_and_clearCache_invalidate_witness :
  let w := after_first_call (JStr "ok") in
  auth_passes true (answers (JStr "new")) /\
  invocations (log (fst (execute stringify (caching 5000) true (answers (JStr "new"))
                           [JObj [("id", JNum 1)]] 2000 2010 (clearCache w)))) =
  S (invocations (log (clearCache w))) /\
  data (clearCache w) = JStr "ok" /\ data (reset w) = JNull.
Proof.
  intros w.
  destruct (ApiCallMore.reset_and_clearCache_invalidate stringify (caching 5000) true
              (answers (JStr "new")) [JObj [("id", JNum 1)]] 2000 2010 w eq_refl)
    as ((Hd & _) & (Hd' & _ & _ & _ & _ & Hinv)).
  split; [reflexivity | split; [exact Hinv | split; [exact Hd' | exact Hd]]].
Defined.



Lemma callbacks_fire_at_most_once_witness :
  let w := after_first_call (JStr "ok") in
  let r := execute stringify (caching 5000) true (answers (JStr "new"))
             [JObj [("id", JNum 1)]] 2000 2010 w in
  isCacheValid stringify (caching 5000) 2000 (cacheRef w)
    (JArr [JObj [("id", JNum 1)]]) = true /\
  onSuccess (caching 5000) = true /\
  Runs.count_callbacks (new_events w (fst r)) = 0%nat.
Proof.
  intros w r.
  split; [reflexivity | split; [reflexivity |]].
  exact (proj1 (proj2 (CallbackFacts.callbacks_fire_at_most_once stringify
                         (caching 5000) true (answers (JStr "new"))
                         [JObj [("id", JNum 1)]] 2000 2010 w)) eq_refl eq_refl).
Defined.


End ApiCallMoreExamples.

(** ** The Poller: stopping, skipped ticks, the number of timers *)

Module PollingMore.
Import Polling PollingFacts PollingLifecycle.

Lemma stopPolling_keeps_halted w : halted w -> halted (stopPolling w).
Proof.
  intros Hh. apply stopPolling_halts. destruct Hh as (_ & _ & Ht).
  intros id Hin. rewrite Ht in Hin. destruct Hin.
Qed.

Lemma stop_times_keeps_halted n : forall w, halted w -> halted (Runs.stop_times n w).
Proof.
  induction n as [|n IH]; intros w Hh; simpl.
  - exact Hh.
  - apply IH. apply stopPolling_keeps_halted. exact Hh.
Qed.

(** [stopPolling] called once or more on a Poller that owns its timers
    leaves [isPolling] false, [timerRef] empty and no live timer; calls
    after the first release nothing, as no [clearInterval] is issued for
    them. *)
Theorem stopPolling_is_idempotent w n :
  owned w -> (0 < n)%nat ->
  halted (Runs.stop_times n w) /\
  filter (fun e => match e with ClearInterval _ => true | _ => false end)
         (log (stopPolling (Runs.stop_times n w))) =
  filter (fun e => match e with ClearInterval _ => true | _ => false end)
         (log (Runs.stop_times n w)).
Proof.
  intros Hown Hn. destruct n as [|n]; [lia|]. simpl.
  assert (Hh : halted (Runs.stop_times n (stopPolling w))).
  { apply stop_times_keeps_halted. apply stopPolling_halts. exact Hown. }
  split; [exact Hh|].
  destruct Hh as (_ & Href & _).
  set (x := Runs.stop_times n (stopPolling w)) in *.
  unfold stopPolling, clearTimer. simpl. rewrite Href. simpl.
  rewrite filter_app. simpl. apply app_nil_r.
Qed.

(** A tick of an operation that requires authentication, while the
    ambient signal is false, is skipped without a trace: the operation is
    not called, the promise resolves to undefined, and no field of the
    state, [error] included, changes, whatever the operation would have
    done. *)
Theorem unauthenticated_tick_is_skipped cfg r w :
  requiresAuth cfg = true -> isAuthenticated cfg = false ->
  let res := executePoll cfg r w in
  snd res = Returned JUndefined /\
  log (fst res) = log w ++ [Poll] /\
  data (fst res) = data w /\ loading (fst res) = loading w /\
  error (fst res) = error w /\ isPolling (fst res) = isPolling w /\
  timerRef (fst res) = timerRef w /\ timers (fst res) = timers w.
Proof.
  intros Hreq Hauth. unfold executePoll, executePoll_begin.
  rewrite Hreq, Hauth. simpl. repeat split; reflexivity.
Qed.

(** A tick leaves the timer and [isPolling] alone unless its operation
    fails under [stopOnError]: a successful tick stores the result and
    clears [error]; a failing tick without [stopOnError] stores the error,
    keeps the previous [data] and polling goes on. *)
Theorem tick_keeps_polling_unless_it_fails_under_stopOnError cfg r w :
  (stopOnError cfg = false \/ exists v, r = Resolved v) ->
  let w' := fst (executePoll cfg r w) in
  timers w' = timers w /\ timerRef w' = timerRef w /\ isPolling w' = isPolling w /\
  (requiresAuth cfg && negb (isAuthenticated cfg) = false ->
   (forall v, r = Resolved v -> data w' = v /\ error w' = JNull /\ loading w' = false) /\
   (forall e, r = Rejected e -> data w' = data w /\ error w' = e /\ loading w' = false)).
Proof.
  intros Hcase. unfold executePoll, executePoll_begin, executePoll_settle.
  destruct (requiresAuth cfg && negb (isAuthenticated cfg)); simpl.
  - repeat split; auto; discriminate.
  - destruct r as [v | e]; simpl.
    + split; [reflexivity | split; [reflexivity | split; [reflexivity |]]].
      intros _. split; intros x Hx; [| discriminate Hx].
      injection Hx as <-. auto.
    + destruct Hcase as [Hstop | (v & Hv)]; [| discriminate Hv].
      rewrite Hstop. simpl.
      split; [reflexivity | split; [reflexivity | split; [reflexivity |]]].
      intros _. split; intros x Hx; [discriminate Hx |].
      injection Hx as <-. auto.
Qed.

Lemma single_timer_owned w : Runs.single_timer w -> owned w.
Proof.
  intros [(Href & Ht) | (id & Href & Ht & _)]; intros x Hx; rewrite Ht in Hx.
  - destruct Hx.
  - destruct Hx as [<- | []]. exact Href.
Qed.

Lemma clearTimer_single w :
  owned w -> timerRef (clearTimer w) = None /\ timers (clearTimer w) = [].
Proof.
  intros Hown. split; [apply clearTimer_timerRef | apply clearTimer_releases; exact Hown].
Qed.

Lemma startPolling_single cfg snapshot w :
  timerRef w = None -> timers w = [] ->
  Runs.single_timer (fst (startPolling cfg snapshot w)).
Proof.
  intros Href Ht.
  destruct (startPolling_from_clear cfg snapshot w Href Ht) as (Hp & Hr & Hl).
  right. exists (next_timer w). auto.
Qed.

Lemma step_single cfg w w' :
  Runs.single_timer w -> step cfg w w' -> Runs.single_timer w'.
Proof.
  intros Hs Hstep. pose proof (single_timer_owned w Hs) as Hown.
  destruct Hstep as [w id Hin | w r | w | w | w].
  - destruct (begin_keeps_timers cfg w) as (Ht & Href & Hp).
    unfold Runs.single_timer. rewrite Ht, Href, Hp. exact Hs.
  - unfold executePoll_settle. destruct r as [result | err]; simpl.
    + exact Hs.
    + destruct (stopOnError cfg); simpl; [| exact Hs].
      set (w1 := setIsPolling false (setError err w)).
      assert (Hown1 : owned w1) by exact Hown.
      destruct (clearTimer_single w1 Hown1) as (Href & Ht).
      left. simpl. auto.
  - unfold effect, cleanup.
    destruct (clearTimer_single w Hown) as (Href & Ht).
    destruct (isPolling w).
    + rewrite clearTimer_idem.
      apply (startPolling_single cfg true (clearTimer w)); assumption.
    + left. auto.
  - destruct (stopPolling_halts w Hown) as (_ & Href & Ht). left. auto.
  - destruct (clearTimer_single w Hown) as (Href & Ht). left. auto.
Qed.

Lemma effect_single cfg snapshot w :
  owned w -> Runs.single_timer (fst (effect cfg snapshot (cleanup w))).
Proof.
  intros Hown. unfold effect, cleanup.
  destruct (clearTimer_single w Hown) as (Href & Ht).
  destruct snapshot.
  - rewrite clearTimer_idem.
    apply (startPolling_single cfg true (clearTimer w)); assumption.
  - left. auto.
Qed.

(** The Poller runs at most one timer as long as [startPolling] is not
    called from a render in which [isPolling] is false while a timer is
    held: in every state reached from the mount by the steps of the hook,
    by runs of the polling effect of any render and by such calls of
    [startPolling], at most one interval timer is live, it is the one held
    in [timerRef], and it is live only while [isPolling] is true. *)
Theorem at_most_one_timer cfg w :
  reachable cfg w ->
  Runs.single_timer w /\ (List.length (timers w) <= 1)%nat.
Proof.
  intros Hr.
  assert (Hs : Runs.single_timer w).
  { induction Hr as [| w w' _ IH Hstep | w snapshot _ IH | w snapshot _ IH Hside].
    - unfold mount, effect, initial. simpl. destruct (immediate cfg) eqn:Him.
      + apply startPolling_single; reflexivity.
      + left. auto.
    - exact (step_single cfg w w' IH Hstep).
    - apply effect_single. apply single_timer_owned. exact IH.
    - destruct IH as [(Href & Ht) | (id & Href & Ht & Hp)].
      + apply startPolling_single; assumption.
      + destruct snapshot;
          [| specialize (Hside eq_refl); rewrite Href in Hside; discriminate].
        unfold startPolling. rewrite Href. simpl.
        right. exists id. auto. }
  split; [exact Hs|].
  destruct Hs as [(_ & Ht) | (id & _ & Ht & _)]; rewrite Ht; simpl; lia.
Qed.

(** [startPolling] does not release a timer it finds: called twice from
    one render in which [isPolling] is false, it starts two timers, and
    [stopPolling] then releases only the second, so the first stays live
    with [isPolling] false. *)
Theorem startPolling_twice_in_one_render_leaks cfg w :
  isPolling w = false -> timerRef w = None -> timers w = [] ->
  let w1 := fst (startPolling cfg (isPolling w) w) in
  let w2 := fst (startPolling cfg (isPolling w) w1) in
  timers w2 = [S (next_timer w); next_timer w] /\
  timerRef w2 = Some (S (next_timer w)) /\
  timers (stopPolling w2) = [next_timer w] /\
  timerRef (stopPolling w2) = None /\
  isPolling (stopPolling w2) = false.
Proof.
  intros Hp Href Ht. rewrite Hp. unfold startPolling. rewrite Href. simpl.
  assert (Hne : Nat.eqb (next_timer w) (S (next_timer w)) = false)
    by (apply Nat.eqb_neq; lia).
  destruct (immediate cfg); [unfold executePoll_begin|];
    destruct (requiresAuth cfg && negb (isAuthenticated cfg)); simpl;
    unfold stopPolling, clearTimer; simpl;
    rewrite Ht, Nat.eqb_refl, Hne; simpl; repeat split; reflexivity.
Qed.

Lemma stopPolling_is_idempotent_witness :
  let w := fst (mount (polling true false)) in
  owned w /\ (0 < 3)%nat /\ timers w = [0%nat] /\
  timers (Runs.stop_times 3 w) = [].
Proof.
  intros w.
  assert (Hown : owned w).
  { intros x Hx. vm_compute in Hx. destruct Hx as [<- | []]. reflexivity. }
  assert (Hn : (0 < 3)%nat) by lia.
  destruct (stopPolling_is_idempotent w 3 Hown Hn) as ((_ & _ & Ht) & _).
  split; [exact Hown | split; [exact Hn | split; [reflexivity | exact Ht]]].
Defined.

Lemma unauthenticated_tick_is_skipped_witness :
  let cfg := {| requiresAuth := true; isAuthenticated := false; interval := 1000;
                immediate := true; stopOnError := true |} in
  requiresAuth cfg = true /\ isAuthenticated cfg = false /\
  error (fst (executePoll cfg (Rejected (JError "down")) (fst (mount cfg)))) = JNull.
Proof.
  intros cfg.
  destruct (unauthenticated_tick_is_skipped cfg (Rejected (JError "down"))
              (fst (mount cfg)) eq_refl eq_refl) as (_ & _ & _ & _ & He & _).
  split; [reflexivity | split; [reflexivity | exact He]].
Defined.

Lemma tick_keeps_polling_witness :
  let cfg := polling true false in
  let w := fst (mount cfg) in
  stopOnError cfg = false /\
  timers (fst (executePoll cfg (Rejected (JError "down")) w)) = [0%nat] /\
  isPolling (fst (executePoll cfg (Rejected (JError "down")) w)) = true.
Proof.
  intros cfg w.
  destruct (tick_keeps_polling_unless_it_fails_under_stopOnError cfg
              (Rejected (JError "down")) w (or_introl eq_refl)) as (Ht & _ & Hp & _).
  split; [reflexivity | split; [exact Ht | exact Hp]].
Defined.

Lemma at_most_one_timer_witness :
  let cfg := polling false false in
  let w := fst (startPolling cfg false (fst (mount cfg))) in
  reachable cfg w /\ (List.length (timers w) <= 1)%nat.
Proof.
  intros cfg w.
  assert (Hr : reachable cfg w).
  { exact (reach_start cfg (fst (mount cfg)) false (reach_mount cfg)
             (fun _ => eq_refl)). }
  split; [exact Hr | exact (proj2 (at_most_one_timer cfg w Hr))].
Defined.

Lemma startPolling_twice_in_one_render_leaks_witness :
  let cfg := polling false false in
  let w := fst (mount cfg) in
  isPolling w = false /\ timerRef w = None /\ timers w = [] /\
  timers (stopPolling (fst (startPolling cfg false (fst (startPolling cfg false w))))) =
  [0%nat].
Proof.
  intros cfg w.
  destruct (startPolling_twice_in_one_render_leaks cfg w eq_refl eq_refl eq_refl)
    as (_ & _ & Hleak & _).
  split; [reflexivity | split; [reflexivity | split; [reflexivity | exact Hleak]]].
Defined.

End PollingMore.

(** ** The Paginator: retries, appending, parameter names *)

Module PagingMore.
Import InfiniteScroll InfiniteScrollFacts RefreshFacts.

(** After the last page, [refresh] needs two calls: the first, from the
    render in which [hasMore] is false, only sets [hasMore] and calls
    nothing; the second, from the next render, fetches [initialPage] and
    replaces the items with a non-empty page. *)
Theorem refresh_after_exhaustion_takes_two_calls opts api response l w :
  loading w = false -> hasMore w = false ->
  api (build_params opts (initialPage opts)) = PageResolved response ->
  newItems_of response = Some l -> l <> [] ->
  let r1 := call (refresh opts api) w in
  let r2 := call (refresh opts api) (fst r1) in
  snd r1 = Returned JUndefined /\ items (fst r1) = items w /\
  hasMore (fst r1) = true /\ invocations (log (fst r1)) = invocations (log w) /\
  snd r2 = Returned (JArr l) /\ items (fst r2) = l /\
  invocations (log (fst r2)) = S (invocations (log w)).
Proof.
  intros Hl Hm Hres Hnew Hne r1 r2.
  assert (H1 : r1 = (setHasMore true w, Returned JUndefined))
    by (apply refresh_after_exhaustion_skips_fetch; exact Hm).
  assert (Hinv1 : invocations (log (setHasMore true w)) = invocations (log w)).
  { unfold invocations. simpl. rewrite filter_length_snoc. simpl. lia. }
  unfold r2. rewrite H1. simpl fst. simpl snd.
  rewrite (refresh_runs opts api response (setHasMore true w) Hl eq_refl Hres).
  simpl fst. simpl snd.
  set (w1 := emit (Invoke (build_params opts (initialPage opts)))
               (setError JNull (setLoading true (setHasMore true (setHasMore true w))))).
  destruct (receive_page opts (setHasMore true w) (initialPage opts) response l w1
              Hnew Hne) as (Hitems & _).
  rewrite Z.eqb_refl in Hitems.
  repeat split; auto.
  - unfold newItems_value. rewrite Hnew. reflexivity.
  - unfold receive. rewrite Hnew, (nonempty_some l Hne), Z.eqb_refl.
    unfold invocations in *.
    destruct (total_of response) as [t|]; [destruct (number_truthy (Some t))|];
      simpl; rewrite !filter_length_snoc; simpl; lia.
Qed.

(** What a call of [fetchPage] can do to the items and the page
    number. *)
Lemma fetchPage_cases opts api snap n w :
  let w' := fst (fetchPage opts api snap (Some n) w) in
  (loading w = false -> loading w' = false) /\
  ((items w' = items w /\ page w' = page w) \/
   (exists l, page w' = n /\
      items w' = if n =? initialPage opts then l else items w ++ l)).
Proof.
  unfold fetchPage.
  destruct (loading snap || negb (hasMore snap)); [simpl; auto|].
  destruct (api (build_params opts n)) as [response | err]; simpl; [|auto].
  split; [reflexivity|].
  unfold receive.
  destruct (nonempty (newItems_of response)); [|left; simpl; auto].
  right. exists (array_of (newItems_of response)).
  destruct (total_of response) as [t|]; [destruct (number_truthy (Some t))|];
    destruct (n =? initialPage opts); simpl; auto.
Qed.

Lemma paging_invariant opts w :
  Runs.paging opts w -> loading w = false /\ initialPage opts <= page w.
Proof.
  induction 1 as [| api w _ (Hl & Hp) | api w _ (Hl & Hp)].
  - simpl. split; [reflexivity | lia].
  - unfold call, refresh.
    destruct (fetchPage_cases opts api w (initialPage opts) (setHasMore true w))
      as (Hidle & [(_ & Hpage) | (l & Hpage & _)]).
    + split; [apply Hidle; exact Hl | rewrite Hpage; exact Hp].
    + split; [apply Hidle; exact Hl | rewrite Hpage; lia].
  - unfold call, loadMore.
    destruct (negb (loading w) && hasMore w); [| simpl; auto].
    destruct (fetchPage_cases opts api w (page w + 1) w)
      as (Hidle & [(_ & Hpage) | (l & Hpage & _)]).
    + split; [apply Hidle; exact Hl | rewrite Hpage; exact Hp].
    + split; [apply Hidle; exact Hl | rewrite Hpage; lia].
Qed.

(** In every state a Paginator reaches through [refresh] and [loadMore],
    no call is pending and [page] is at least [initialPage]; hence
    [loadMore] never replaces the list: the items before the call are a
    prefix of the items after it. *)
Theorem loadMore_only_appends opts api w :
  Runs.paging opts w ->
  loading w = false /\ initialPage opts <= page w /\
  exists l, items (fst (call (loadMore opts api) w)) = items w ++ l.
Proof.
  intros Hreach. destruct (paging_invariant opts w Hreach) as (Hl & Hp).
  split; [exact Hl | split; [exact Hp |]].
  unfold call, loadMore.
  destruct (negb (loading w) && hasMore w).
  - destruct (fetchPage_cases opts api w (page w + 1) w)
      as (_ & [(Hitems & _) | (l & _ & Hitems)]).
    + exists []. rewrite app_nil_r. exact Hitems.
    + exists l. rewrite Hitems.
      destruct (Z.eqb_spec (page w + 1) (initialPage opts)); [lia | reflexivity].
  - exists []. rewrite app_nil_r. reflexivity.
Qed.

(** A [loadMore] that runs starts by setting [loading], clearing
    [error] and calling the operation for the page after [page]. *)
Lemma loadMore_starts opts api w :
  loading w = false -> hasMore w = true ->
  exists rest,
    log (fst (call (loadMore opts api) w)) =
    log w ++ SetLoading true :: SetError JNull
          :: Invoke (build_params opts (page w + 1)) :: rest.
Proof.
  intros Hl Hm. unfold call, loadMore, fetchPage. rewrite Hl, Hm. simpl.
  destruct (api (build_params opts (page w + 1))) as [response | err].
  - unfold receive.
    destruct (nonempty (newItems_of response));
      [destruct (total_of response) as [t|]; [destruct (number_truthy (Some t))|];
       destruct (page w + 1 =? initialPage opts) |];
      simpl; rewrite <- !app_assoc; eexists; simpl; reflexivity.
  - simpl. rewrite <- !app_assoc. eexists; simpl; reflexivity.
Qed.

(** A [loadMore] whose operation fails raises the error and keeps the
    items, the page number and [hasMore], so the next [loadMore] asks for
    the same page again, after clearing the error. *)
Theorem failed_loadMore_can_be_retried opts api retry err w :
  loading w = false -> hasMore w = true ->
  api (build_params opts (page w + 1)) = PageRejected err ->
  let r := call (loadMore opts api) w in
  snd r = Thrown err /\ error (fst r) = err /\
  items (fst r) = items w /\ page (fst r) = page w /\
  hasMore (fst r) = true /\ loading (fst r) = false /\
  exists rest,
    new_events (fst r) (fst (call (loadMore opts retry) (fst r))) =
    SetLoading true :: SetError JNull
    :: Invoke (build_params opts (page w + 1)) :: rest.
Proof.
  intros Hl Hm Hrej r.
  assert (Hr : r = (setLoading false
                      (setError err
                         (emit (Invoke (build_params opts (page w + 1)))
                            (setError JNull (setLoading true w)))),
                    Thrown err)).
  { unfold r, call, loadMore. rewrite Hl, Hm. simpl.
    apply fetchPage_fails; assumption. }
  rewrite Hr. simpl fst. simpl snd.
  repeat split; auto.
  set (w1 := setLoading false _).
  destruct (loadMore_starts opts retry w1 eq_refl Hm) as (rest & Hlog).
  exists rest. unfold new_events. rewrite Hlog. apply skipn_length_app.
Qed.

(** The params object of a page request: the limit is always sent under
    [limitParam]; the page number is sent under [pageParam] when the two
    names differ, and is lost when they are the same, so that every page
    request is then the same request. *)
Theorem build_params_names opts n :
  get_prop (build_params opts n) (limitParam opts) = Some (JNum (pageSize opts)) /\
  (pageParam opts <> limitParam opts ->
   get_prop (build_params opts n) (pageParam opts) = Some (JNum n)) /\
  (pageParam opts = limitParam opts ->
   forall m, build_params opts m = build_params opts n).
Proof.
  unfold build_params.
  destruct (String.eqb_spec (pageParam opts) (limitParam opts)) as [Heq | Hne].
  - split; [| split].
    + simpl. rewrite String.eqb_refl. reflexivity.
    + intros H. contradiction.
    + intros _ m. reflexivity.
  - assert (Hsym : String.eqb (limitParam opts) (pageParam opts) = false).
    { apply String.eqb_neq. intros H. apply Hne. symmetry. exact H. }
    split; [| split].
    + simpl. rewrite Hsym, String.eqb_refl. reflexivity.
    + intros _. simpl. rewrite String.eqb_refl. reflexivity.
    + intros H. contradiction.
Qed.

Lemma refresh_after_exhaustion_takes_two_calls_witness :
  let api := backend (catalogue 25) true in
  let w := after_pages 3 in
  loading w = false /\ hasMore w = false /\
  items (fst (call (refresh default_options api) w)) = catalogue 25 /\
  items (fst (call (refresh default_options api)
                (fst (call (refresh default_options api) w)))) = catalogue 10.
Proof.
  intros api w.
  assert (Hne : catalogue 10 <> []) by (vm_compute; discriminate).
  destruct (refresh_after_exhaustion_takes_two_calls default_options api
              (RespObject (Some (catalogue 10)) None None (Some 25) None None)
              (catalogue 10) w eq_refl eq_refl eq_refl eq_refl Hne)
    as (_ & H1 & _ & _ & _ & H2 & _).
  split; [reflexivity | split; [reflexivity | split; [exact H1 | exact H2]]].
Defined.

Lemma loadMore_only_appends_witness :
  let api := backend (catalogue 25) true in
  let w := fst (call (refresh default_options api) (initial default_options)) in
  Runs.paging default_options w /\
  exists l, items (fst (call (loadMore default_options api) w)) = items w ++ l.
Proof.
  intros api w.
  assert (Hr : Runs.paging default_options w).
  { exact (Runs.paging_refresh default_options api _
             (Runs.paging_initial default_options)). }
  split; [exact Hr |].
  exact (proj2 (proj2 (loadMore_only_appends default_options api w Hr))).
Defined.

Lemma failed_loadMore_can_be_retried_witness :
  let w := after_pages 1 in
  let r := call (loadMore default_options (down (JError "down"))) w in
  loading w = false /\ hasMore w = true /\
  snd r = Thrown (JError "down") /\ page (fst r) = 1 /\
  len (items (fst r)) = 10.
Proof.
  intros w r.
  destruct (failed_loadMore_can_be_retried default_options (down (JError "down"))
              (backend (catalogue 25) true) (JError "down") w eq_refl eq_refl eq_refl)
    as (H1 & _ & H3 & H4 & _).
  fold r in H1, H3, H4.
  split; [reflexivity | split; [reflexivity | split; [exact H1 | split]]].
  - rewrite H4. reflexivity.
  - rewrite H3. reflexivity.
Defined.

Lemma build_params_names_witness :
  let opts := {| initialPage := 0; pageSize := 20; pageParam := "offset";
                 limitParam := "offset" |} in
  pageParam default_options <> limitParam default_options /\
  get_prop (build_params default_options 3) "page" = Some (JNum 3) /\
  pageParam opts = limitParam opts /\
  build_params opts 7 = build_params opts 0.
Proof.
  intros opts.
  assert (Hne : pageParam default_options <> limitParam default_options)
    by (vm_compute; discriminate).
  split; [exact Hne | split; [| split; [reflexivity |]]].
  - exact (proj1 (proj2 (build_params_names default_options 3)) Hne).
  - exact (proj2 (proj2 (build_params_names opts 0)) eq_refl 7).
Defined.

End PagingMore.

(** ** The REST client: what is sent, and how a call can end *)

Module ApiClientFacts.
Import Api ApiClient.

Lemma lookup_assign_same k v (o : Obj) : lookup k (assign k v o) = v.
Proof.
  induction o as [|[k' v'] o IH]; simpl.
  - rewrite String.eqb_refl. reflexivity.
  - destruct (String.eqb k k') eqn:Heq; simpl.
    + rewrite String.eqb_refl. reflexivity.
    + rewrite Heq. exact IH.
Qed.

Lemma lookup_assign_other k k' v (o : Obj) :
  k <> k' -> lookup k' (assign k v o) = lookup k' o.
Proof.
  intros Hne. induction o as [|[k0 v0] o IH]; simpl.
  - destruct (String.eqb_spec k' k); [congruence | reflexivity].
  - destruct (String.eqb_spec k k0) as [-> | Hk]; simpl.
    + destruct (String.eqb_spec k' k0); [congruence | reflexivity].
    + destruct (String.eqb k' k0); [reflexivity | exact IH].
Qed.

Lemma has_own_absent k (o : Obj) : ~ In k (map fst o) -> has_own k o = false.
Proof.
  induction o as [|[k' v'] o IH]; simpl; intros Hnot; auto.
  destruct (String.eqb_spec k k') as [-> | Hne]; simpl.
  - exfalso. apply Hnot. left. reflexivity.
  - apply IH. intros Hin. apply Hnot. right. exact Hin.
Qed.

Lemma lookup_absent k (o : Obj) : has_own k o = false -> lookup k o = JUndefined.
Proof.
  induction o as [|[k' v'] o IH]; simpl; auto.
  destruct (String.eqb k k'); simpl; [discriminate | exact IH].
Qed.

(** Reading a property of [{ ...o, ...extra }]. *)
Lemma lookup_spread k (extra : Obj) : forall o : Obj,
  NoDup (map fst extra) ->
  lookup k (spread o extra) =
  if has_own k extra then lookup k extra else lookup k o.
Proof.
  unfold spread.
  induction extra as [|[k1 v1] extra IH]; intros o Hnd; simpl; auto.
  inversion Hnd as [| x l Hnot Hnd' ]; subst.
  rewrite (IH _ Hnd').
  destruct (String.eqb_spec k k1) as [-> | Hne]; simpl.
  - rewrite (has_own_absent k1 extra Hnot). apply lookup_assign_same.
  - destruct (has_own k extra); [reflexivity |].
    apply lookup_assign_other. congruence.
Qed.

Lemma falsy_has_no_fields v : truthy v = false -> fields_of v = [].
Proof.
  destruct v; simpl; try discriminate; auto.
  destruct s; simpl; [reflexivity | discriminate].
Qed.

(** The URL of a request: a leading slash of the endpoint is optional,
    and an unset or empty environment variable selects the default
    base. *)
Theorem url_leading_slash_is_optional env endpoint :
  startsWith_slash endpoint = false ->
  url_of env ("/" ++ endpoint) = url_of env endpoint /\
  url_of env endpoint = (BASE_API_URL env ++ "/" ++ endpoint)%string /\
  url_of None endpoint = ("http://localhost:8000/api/" ++ endpoint)%string /\
  url_of (Some EmptyString) endpoint = url_of None endpoint.
Proof.
  intros Hno. unfold url_of. rewrite Hno.
  assert (Hyes : startsWith_slash ("/" ++ endpoint) = true).
  { unfold startsWith_slash. simpl. destruct endpoint; reflexivity. }
  rewrite Hyes. repeat split; reflexivity.
Qed.

Section WithHost.

Variable JSON_stringify : JsVal -> string.
Variable URLSearchParams : JsVal -> JsVal.
Variable env : option string.
Variable fetch : string -> Obj -> FetchResult.

(** The headers of a request: when [customConfig] has a [headers]
    property, the request carries exactly that value, so neither the
    content type nor the token is added to it; otherwise it carries the
    JSON content type, and the Authorization header with the stored
    token exactly when [requiresAuth] is set and the token is a non-empty
    string. *)
Theorem request_headers method data requiresAuth customConfig token :
  NoDup (map fst customConfig) ->
  lookup "headers" (config_of JSON_stringify method data requiresAuth customConfig token) =
  if has_own "headers" customConfig then lookup "headers" customConfig
  else JObj (("Content-Type", JStr "application/json")
             :: (if requiresAuth && token_truthy token
                 then [("Authorization", bearer token)] else [])).
Proof.
  intros Hnd. unfold config_of.
  assert (Hkeep : forall o : Obj,
            lookup "headers"
              (if truthy data && is_write method
               then assign "body" (JStr (JSON_stringify data)) o else o) =
            lookup "headers" o).
  { intros o. destruct (truthy data && is_write method); [| reflexivity].
    apply lookup_assign_other. discriminate. }
  rewrite Hkeep, (lookup_spread "headers" customConfig _ Hnd).
  destruct (has_own "headers" customConfig) eqn:Hown; [reflexivity |].
  simpl. unfold headers_of. rewrite (lookup_absent _ _ Hown). simpl.
  destruct (requiresAuth && token_truthy token); reflexivity.
Qed.

(** The body and the method of a request: the body is the serialized
    [data] exactly when [data] is truthy and the method argument is POST
    or PUT, replacing a body of [customConfig]; otherwise it is the body
    of [customConfig], if any, so a GET or DELETE never sends [data].  A
    [method] property of [customConfig] replaces the method argument. *)
Theorem request_body_and_method method data requiresAuth customConfig token :
  NoDup (map fst customConfig) ->
  let config := config_of JSON_stringify method data requiresAuth customConfig token in
  lookup "body" config =
    (if truthy data && is_write method then JStr (JSON_stringify data)
     else lookup "body" customConfig) /\
  lookup "method" config =
    (if has_own "method" customConfig then lookup "method" customConfig
     else JStr method).
Proof.
  intros Hnd config. unfold config, config_of. split.
  - destruct (truthy data && is_write method).
    + apply lookup_assign_same.
    + rewrite (lookup_spread "body" customConfig _ Hnd).
      destruct (has_own "body" customConfig) eqn:Hown; [reflexivity |].
      rewrite (lookup_absent _ _ Hown). reflexivity.
  - assert (Hkeep : forall o : Obj,
              lookup "method"
                (if truthy data && is_write method
                 then assign "body" (JStr (JSON_stringify data)) o else o) =
              lookup "method" o).
    { intros o. destruct (truthy data && is_write method); [| reflexivity].
      apply lookup_assign_other. discriminate. }
    rewrite Hkeep, (lookup_spread "method" customConfig _ Hnd).
    destruct (has_own "method" customConfig); reflexivity.
Qed.

Lemma listing_config_value params :
  listing_config URLSearchParams params =
  ("headers", JObj [])
  :: (if truthy params then [("url", URLSearchParams params)] else []).
Proof.
  unfold listing_config. destruct (truthy params) eqn:Htr.
  - reflexivity.
  - rewrite (falsy_has_no_fields params Htr). reflexivity.
Qed.

Lemma listing_request endpoint params token :
  startsWith_slash endpoint = false ->
  apiRequest JSON_stringify env fetch endpoint "GET" JNull true
    (listing_config URLSearchParams params) token =
  Api.apiRequest
    (fetch (BASE_API_URL env ++ "/" ++ endpoint)%string
       (("method", JStr "GET") :: ("headers", JObj [])
        :: (if truthy params then [("url", URLSearchParams params)] else [])))
    token.
Proof.
  intros Hno. unfold apiRequest, url_of, config_of. rewrite Hno.
  rewrite listing_config_value. simpl.
  destruct (truthy params); reflexivity.
Qed.

(** The listing endpoints ([getScenes], [getHistory],
    [getFeedbackHistory]) send neither their query parameters nor the
    stored token: whatever [params] and the token are, the URL is the
    bare endpoint and the headers are the empty object; [params] only
    appear as a [url] property of the config. *)
Theorem listing_endpoints_drop_params_and_token params token :
  let config :=
    ("method", JStr "GET") :: ("headers", JObj [])
    :: (if truthy params then [("url", URLSearchParams params)] else []) in
  getScenes JSON_stringify URLSearchParams env fetch params token =
    Api.apiRequest (fetch (BASE_API_URL env ++ "/ar/scenes")%string config) token /\
  getHistory JSON_stringify URLSearchParams env fetch params token =
    Api.apiRequest (fetch (BASE_API_URL env ++ "/text/history")%string config) token /\
  getFeedbackHistory JSON_stringify URLSearchParams env fetch params token =
    Api.apiRequest (fetch (BASE_API_URL env ++ "/feedback/history")%string config) token.
Proof.
  intros config. unfold getScenes, getHistory, getFeedbackHistory.
  repeat split; apply listing_request; reflexivity.
Qed.

(** Against a server that answers 401 to every request without an
    Authorization header, a listing endpoint fails with the
    authentication error and removes the stored token, whatever the
    token was. *)
Theorem listing_endpoint_logs_out params token :
  (forall url config,
     has_own "Authorization" (fields_of (lookup "headers" config)) = false ->
     exists r d, fetch url config = Responded r /\ resp_status r = 401 /\
                 read_body r = Some d) ->
  exists d,
    getScenes JSON_stringify URLSearchParams env fetch params token =
    (None, Raise {| message := JStr "Unauthorized: Please log in again";
                    status := 401; data := d |}).
Proof.
  intros Hserver.
  unfold getScenes. rewrite listing_request by reflexivity.
  match goal with
  | |- context [fetch ?u ?c] =>
      destruct (Hserver u c) as (r & d & Hf & Hst & Hbody);
        [destruct (truthy params); reflexivity |]
  end.
  exists d. rewrite Hf.
  rewrite (ApiFacts.apiRequest_read r token d) by (rewrite ?Hst; auto; discriminate).
  rewrite (ApiFacts.not_ok_special r) by (rewrite Hst; reflexivity).
  rewrite Hst. reflexivity.
Qed.

(** [launchScene(sceneId, options)] posts [{ sceneId, ...options }]: a
    [sceneId] property of [options] replaces the argument, every other
    property of [options] is sent as it is, and the body is always
    present. *)
Theorem launchScene_options_override sceneId options token :
  NoDup (map fst (fields_of options)) ->
  get_prop (launch_data sceneId options) "sceneId" =
    Some (if has_own "sceneId" (fields_of options)
          then lookup "sceneId" (fields_of options) else sceneId) /\
  (forall k, has_own k (fields_of options) = true ->
     get_prop (launch_data sceneId options) k = Some (lookup k (fields_of options))) /\
  launchScene JSON_stringify env fetch sceneId options token =
    Api.apiRequest
      (fetch (BASE_API_URL env ++ "/ar/launch")%string
         (("method", JStr "POST")
          :: ("headers",
              JObj (("Content-Type", JStr "application/json")
                    :: (if token_truthy token
                        then [("Authorization", bearer token)] else [])))
          :: [("body", JStr (JSON_stringify (launch_data sceneId options)))]))
      token.
Proof.
  intros Hnd. unfold launch_data. simpl get_prop. split; [| split].
  - rewrite (lookup_spread "sceneId" _ _ Hnd). simpl.
    destruct (has_own "sceneId" (fields_of options)); reflexivity.
  - intros k Hown. rewrite (lookup_spread k _ _ Hnd), Hown. reflexivity.
  - unfold launchScene, apiRequest, url_of, config_of, headers_of. simpl.
    destruct (token_truthy token); reflexivity.
Qed.

End WithHost.

End ApiClientFacts.

Module OutcomeFacts.
Import Api.



End OutcomeFacts.

(** ** A page that loads through the client *)

Module PagesFacts.
Import Api Pages.

Lemma failure_raises fetched token :
  (forall r, fetched = Responded r -> ok r = false) ->
  exists e, snd (apiRequest fetched token) = Raise e.
Proof.
  intros Hfail. destruct fetched as [r | err]; [| eexists; reflexivity].
  specialize (Hfail r eq_refl). unfold apiRequest.
  destruct (Z.eqb_spec (resp_status r) 204) as [H204 | _].
  { rewrite (ApiFacts.ok_204 r H204) in Hfail. discriminate. }
  destruct (read_body r) as [d |]; [| eexists; reflexivity].
  rewrite Hfail. simpl.
  destruct (resp_status r =? 401); [eexists; reflexivity |].
  destruct (resp_status r =? 403); [eexists; reflexivity |].
  destruct (resp_status r =? 404); [eexists; reflexivity |].
  destruct (resp_status r =? 429); [eexists; reflexivity |].
  destruct (isJson r); [| eexists; reflexivity].
  destruct (get_prop d "message"); eexists; reflexivity.
Qed.

(** [fetchScenes] always ends with [isLoading] false.  It shows the
    fetched value with no error when the request yields a payload, and
    the fallback scenes with the error message whenever the request
    raises, which it does for every network failure and every response
    with a status outside 200-299. *)
Theorem fetchScenes_falls_back fallbackScenes fetched token s :
  let outcome := snd (apiRequest fetched token) in
  let s' := fetchScenes fallbackScenes outcome s in
  isLoading s' = false /\
  (forall v, outcome = Ok v -> scenes s' = v /\ error s' = JNull) /\
  (forall e, outcome = Raise e ->
     scenes s' = fallbackScenes /\ error s' = scenes_error) /\
  ((forall r, fetched = Responded r -> ok r = false) ->
   scenes s' = fallbackScenes /\ error s' = scenes_error).
Proof.
  intros outcome s'.
  assert (Hraise : forall e, outcome = Raise e ->
            scenes s' = fallbackScenes /\ error s' = scenes_error).
  { intros e He. unfold s', fetchScenes. rewrite He. simpl. auto. }
  split; [| split; [| split]].
  - unfold s', fetchScenes. destruct outcome; reflexivity.
  - intros v Hv. unfold s', fetchScenes. rewrite Hv. simpl. auto.
  - exact Hraise.
  - intros Hfail. destruct (failure_raises fetched token Hfail) as (e & He).
    exact (Hraise e He).
Qed.

Lemma fetchScenes_falls_back_witness :
  let fetched := Responded (json_response 503 (Some (JObj [])) "{}") in
  let s := {| scenes := JArr []; isLoading := true; error := JNull |} in
  (forall r, fetched = Responded r -> ok r = false) /\
  scenes (fetchScenes (JArr [JStr "demo"]) (snd (apiRequest fetched (Some "jwt"))) s) =
  JArr [JStr "demo"].
Proof.
  intros fetched s.
  assert (Hfail : forall r, fetched = Responded r -> ok r = false).
  { intros r Hr. injection Hr as <-. reflexivity. }
  split; [exact Hfail |].
  destruct (fetchScenes_falls_back (JArr [JStr "demo"]) fetched (Some "jwt") s)
    as (_ & _ & _ & Hfall).
  exact (proj1 (Hfall Hfail)).
Defined.

End PagesFacts.

Module ApiClientExamples.
Import Api ApiClient ApiClientFacts.

Lemma NoDup_two (a b : string) : a <> b -> NoDup [a; b].
Proof.
  intros Hne. constructor.
  - intros [H | []]. apply Hne. symmetry. exact H.
  - constructor; [intros [] | constructor].
Qed.

Lemma url_leading_slash_is_optional_witness :
  startsWith_slash "auth/me" = false /\
  url_of None "/auth/me" = url_of None "auth/me" /\
  url_of None "auth/me" = "http://localhost:8000/api/auth/me".
Proof.
  destruct (url_leading_slash_is_optional None "auth/me" eq_refl) as (H1 & _ & H3 & _).
  split; [reflexivity | split; [exact H1 | exact H3]].
Defined.

(** A protected endpoint called with a stored token sends it; the same
    call with custom headers does not. *)
Lemma request_headers_witness :
  let custom : Obj := [("headers", JObj []); ("body", JStr "form")] in
  NoDup (map fst custom) /\
  lookup "headers" (config_of stringify "GET" JNull true [] (Some "jwt")) =
    JObj [("Content-Type", JStr "application/json");
          ("Authorization", JStr "Bearer jwt")] /\
  lookup "headers" (config_of stringify "POST" JNull true custom (Some "jwt")) = JObj [].
Proof.
  intros custom.
  assert (Hnd : NoDup (map fst custom)) by (apply NoDup_two; discriminate).
  split; [exact Hnd | split].
  - exact (request_headers stringify "GET" JNull true [] (Some "jwt") (NoDup_nil _)).
  - exact (request_headers stringify "POST" JNull true custom (Some "jwt") Hnd).
Defined.

Lemma request_body_and_method_witness :
  let data := JObj [("id", JNum 7)] in
  NoDup (map fst (@nil (string * JsVal))) /\
  lookup "body" (config_of stringify "DELETE" data true [] None) = JUndefined /\
  lookup "body" (config_of stringify "PUT" data true [] None) = JStr (stringify data).
Proof.
  intros data.
  split; [apply NoDup_nil | split].
  - exact (proj1 (request_body_and_method stringify "DELETE" data true [] None
                    (NoDup_nil _))).
  - exact (proj1 (request_body_and_method stringify "PUT" data true [] None
                    (NoDup_nil _))).
Defined.

Lemma guarded_server_rejects payload url config :
  has_own "Authorization" (fields_of (lookup "headers" config)) = false ->
  exists r d, guarded_server payload url config = Responded r /\
              resp_status r = 401 /\ read_body r = Some d.
Proof.
  intros Hno. unfold guarded_server. rewrite Hno.
  eexists. eexists. repeat split.
Qed.

Lemma listing_endpoint_logs_out_witness :
  fst (getScenes stringify no_search None (guarded_server (JArr []))
         (JObj [("page", JNum 1)]) (Some "jwt")) = None /\
  snd (getSceneById stringify None (guarded_server (JArr [])) "7" (Some "jwt")) =
    Ok (JArr []).
Proof.
  destruct (listing_endpoint_logs_out stringify no_search None
              (guarded_server (JArr [])) (JObj [("page", JNum 1)]) (Some "jwt")
              (guarded_server_rejects (JArr []))) as (d & Hd).
  split; [rewrite Hd; reflexivity | reflexivity].
Defined.

Lemma launchScene_options_override_witness :
  let options := JObj [("volume", JNum 0); ("sceneId", JStr "other")] in
  NoDup (map fst (fields_of options)) /\
  get_prop (launch_data (JNum 7) options) "sceneId" = Some (JStr "other") /\
  get_prop (launch_data (JNum 7) (JObj [("volume", JNum 0)])) "sceneId" = Some (JNum 7).
Proof.
  intros options.
  assert (Hnd : NoDup (map fst (fields_of options))) by (apply NoDup_two; discriminate).
  split; [exact Hnd | split].
  - exact (proj1 (launchScene_options_override stringify None
                    (guarded_server JNull) (JNum 7) options None Hnd)).
  - refine (proj1 (launchScene_options_override stringify None
                     (guarded_server JNull) (JNum 7) (JObj [("volume", JNum 0)]) None _)).
    simpl. constructor; [intros [] | constructor].
Defined.

End ApiClientExamples.

Module RestartFacts.
Import Polling.

(** When the polling effect runs again while polling (a dependency
    changed), the timer in use is released before anything else, then
    exactly one new timer is started; with [immediate] one invocation is
    started in between, which calls the operation unless the gate skips
    it. *)
Theorem dependency_change_restarts_timer cfg w id :
  isPolling w = true -> timerRef w = Some id -> timers w = [id] ->
  let w' := fst (effect cfg (isPolling w) (cleanup w)) in
  timers w' = [next_timer w] /\ timerRef w' = Some (next_timer w) /\
  isPolling w' = true /\
  log w' =
    log w ++ ClearInterval id :: SetIsPolling true
    :: (if immediate cfg
        then Poll :: (if requiresAuth cfg && negb (isAuthenticated cfg) then []
                      else [SetLoading true; SetError JNull; Invoke])
        else [])
    ++ [SetInterval (next_timer w)].
Proof.
  intros Hp Href Ht. rewrite Hp.
  unfold effect, cleanup, clearTimer. rewrite Href. simpl.
  unfold startPolling. simpl. rewrite Ht. simpl. rewrite Nat.eqb_refl. simpl.
  destruct (immediate cfg); [unfold executePoll_begin|];
    destruct (requiresAuth cfg && negb (isAuthenticated cfg)); simpl;
    rewrite <- ?app_assoc; simpl; repeat split; reflexivity.
Qed.

Lemma dependency_change_restarts_timer_witness :
  let cfg := polling true false in
  let w := fst (mount cfg) in
  isPolling w = true /\ timerRef w = Some 0%nat /\ timers w = [0%nat] /\
  timers (fst (effect cfg (isPolling w) (cleanup w))) = [1%nat].
Proof.
  intros cfg w.
  destruct (dependency_change_restarts_timer cfg w 0%nat eq_refl eq_refl eq_refl)
    as (Ht & _).
  split; [reflexivity | split; [reflexivity | split; [reflexivity | exact Ht]]].
Defined.

End RestartFacts.

Module PublicEndpoints.
Import Api ApiClient.

(** [login] and [register] never send the stored token: whatever is in
    the local storage, their request carries the JSON content type only,
    and the serialized argument as its body when the argument is truthy;
    [logout] posts without a body and sends the token when it is a
    non-empty string. *)
Theorem public_endpoints_send_no_token
    (JSON_stringify : JsVal -> string) env
    (fetch : string -> Obj -> FetchResult) payload token :
  let open_request :=
    ("method", JStr "POST")
    :: ("headers", JObj [("Content-Type", JStr "application/json")])
    :: (if truthy payload then [("body", JStr (JSON_stringify payload))] else []) in
  login JSON_stringify env fetch payload token =
    Api.apiRequest (fetch (BASE_API_URL env ++ "/auth/login")%string open_request) token /\
  register JSON_stringify env fetch payload token =
    Api.apiRequest (fetch (BASE_API_URL env ++ "/auth/register")%string open_request)
      token /\
  logout JSON_stringify env fetch token =
    Api.apiRequest
      (fetch (BASE_API_URL env ++ "/auth/logout")%string
         [("method", JStr "POST");
          ("headers",
           JObj (("Content-Type", JStr "application/json")
                 :: (if token_truthy token
                     then [("Authorization", bearer token)] else [])))])
      token.
Proof.
  unfold login, register, logout, apiRequest, url_of, config_of, headers_of. simpl.
  rewrite !andb_true_r.
  destruct (truthy payload), (token_truthy token); repeat split; reflexivity.
Qed.

End PublicEndpoints.

Module OutcomeExamples.
Import Api.


End OutcomeExamples.

(** * The Call Controller with a serializer and callbacks that may throw *)

Module CacheCheck.
Import ApiCall.

Section WithSerializer.

Variable JSON_stringify : JsVal -> ApiCallFull.Serialized.

Lemma live_or_not opts now c :
  ApiCallFull.entry_live opts now c \/ ~ ApiCallFull.entry_live opts now c.
Proof.
  unfold ApiCallFull.entry_live.
  destruct (timestamp c) as [t|]; [| right; intros (t & Ht & _); discriminate].
  destruct (Z.eq_dec t 0) as [-> | Hnz];
    [right; intros (t & Ht & Hnz & _); congruence |].
  destruct (truthy (entry_data c)) eqn:Htr;
    [| right; intros (t' & _ & _ & H & _); discriminate].
  destruct (Z_le_gt_dec (now - t) (cacheTime opts)) as [Hage | Hage].
  - left. exists t. auto.
  - right. intros (t' & Ht & _ & _ & Hle). injection Ht as <-. lia.
Qed.

Lemma check_dead opts now c params :
  ~ ApiCallFull.entry_live opts now c ->
  ApiCallFull.isCacheValid JSON_stringify opts now c params = ApiCallFull.Valid false.
Proof.
  intros Hdead. unfold ApiCallFull.isCacheValid.
  destruct (cache opts); simpl; [| reflexivity].
  destruct (timestamp c) as [t|] eqn:Ht; simpl; [| reflexivity].
  destruct (Z.eqb_spec t 0) as [Hz | Hnz]; simpl; [reflexivity |].
  destruct (truthy (entry_data c)) eqn:Htr; simpl; [| reflexivity].
  destruct (Z.gtb_spec (now - t) (cacheTime opts)) as [Hold | Hfresh]; [reflexivity |].
  exfalso. apply Hdead. exists t. auto.
Qed.

Lemma check_live opts now c params :
  cache opts = true -> ApiCallFull.entry_live opts now c ->
  ApiCallFull.isCacheValid JSON_stringify opts now c params =
  match JSON_stringify params with
  | ApiCallFull.Throws e => ApiCallFull.Raised e
  | ApiCallFull.Text requested =>
      match JSON_stringify (entry_params c) with
      | ApiCallFull.Throws e => ApiCallFull.Raised e
      | ApiCallFull.Text cached => ApiCallFull.Valid (String.eqb requested cached)
      end
  end.
Proof.
  intros Hc (t & Ht & Hnz & Htr & Hage). unfold ApiCallFull.isCacheValid.
  rewrite Hc, Ht, Htr. simpl.
  destruct (Z.eqb_spec t 0) as [Hz | _]; [contradiction |]. simpl.
  destruct (Z.gtb_spec (now - t) (cacheTime opts)) as [Hold | _]; [lia | reflexivity].
Qed.

Lemma execute_miss opts cb isAuthenticated apiFunction params t_call t_done w :
  auth_passes isAuthenticated apiFunction ->
  ApiCallFull.isCacheValid JSON_stringify opts t_call (cacheRef w) (JArr params) =
    ApiCallFull.Valid false ->
  let w' := fst (ApiCallFull.execute JSON_stringify opts cb isAuthenticated
                   apiFunction params t_call t_done w) in
  invocations (log w') = S (invocations (log w)) /\
  In (Invoke params) (new_events w w').
Proof.
  unfold auth_passes, ApiCallFull.execute, ApiCallFull.catch_block. intros -> ->.
  destruct (call apiFunction params) as [result | err];
    destruct (cache opts), (onSuccess opts), (onError opts);
    try destruct (ApiCallFull.on_success cb result) as [thrown |];
    try destruct (ApiCallFull.on_error cb thrown);
    try destruct (ApiCallFull.on_error cb err);
    unfold new_events, invocations; simpl;
    rewrite ?filter_length_snoc; simpl; rewrite <- ?app_assoc;
    rewrite skipn_length_app; simpl; split; try lia; auto.
Qed.

Lemma execute_served_entry opts cb isAuthenticated apiFunction params t_call t_done w :
  auth_passes isAuthenticated apiFunction ->
  ApiCallFull.isCacheValid JSON_stringify opts t_call (cacheRef w) (JArr params) =
    ApiCallFull.Valid true ->
  let r := ApiCallFull.execute JSON_stringify opts cb isAuthenticated
             apiFunction params t_call t_done w in
  snd r = Returned (entry_data (cacheRef w)) /\
  data (fst r) = entry_data (cacheRef w) /\
  new_events w (fst r) = [SetData (entry_data (cacheRef w))] /\
  invocations (log (fst r)) = invocations (log w).
Proof.
  unfold auth_passes, ApiCallFull.execute. intros -> ->.
  unfold new_events, invocations. simpl.
  rewrite filter_length_snoc, skipn_length_app. simpl.
  repeat split; auto; lia.
Qed.

(** C1, as the code has it: with caching enabled and the authentication
    gate passed, and when [JSON.stringify] does not throw on the params
    the cache check compares, [execute(params)] calls the wrapped
    operation if and only if there is no cache entry with a non-zero
    timestamp and truthy data whose age is at most [cacheTime] and whose
    stored params serialize to the same JSON text as [params].  On such
    an entry it returns the cached data and sets [data] to it without
    calling the operation; when the entry is older than [cacheTime] the
    operation is called again. *)
Theorem execute_calls_unless_served
    opts cb isAuthenticated apiFunction params t_call t_done w :
  cache opts = true ->
  auth_passes isAuthenticated apiFunction ->
  ApiCallFull.serializes JSON_stringify opts t_call (cacheRef w) (JArr params) ->
  let r := ApiCallFull.execute JSON_stringify opts cb isAuthenticated
             apiFunction params t_call t_done w in
  (invocations (log (fst r)) = S (invocations (log w)) <->
   ~ ApiCallFull.entry_serves JSON_stringify opts t_call (cacheRef w) (JArr params)) /\
  (ApiCallFull.entry_serves JSON_stringify opts t_call (cacheRef w) (JArr params) ->
   snd r = Returned (entry_data (cacheRef w)) /\
   data (fst r) = entry_data (cacheRef w) /\
   new_events w (fst r) = [SetData (entry_data (cacheRef w))] /\
   invocations (log (fst r)) = invocations (log w)) /\
  (forall t, timestamp (cacheRef w) = Some t -> t_call - t > cacheTime opts ->
   invocations (log (fst r)) = S (invocations (log w)) /\
   In (Invoke params) (new_events w (fst r))).
Proof.
  intros Hc Ha Hser r.
  assert (Hcases :
    (ApiCallFull.entry_serves JSON_stringify opts t_call (cacheRef w) (JArr params) /\
     ApiCallFull.isCacheValid JSON_stringify opts t_call (cacheRef w) (JArr params) =
       ApiCallFull.Valid true) \/
    (~ ApiCallFull.entry_serves JSON_stringify opts t_call (cacheRef w) (JArr params) /\
     ApiCallFull.isCacheValid JSON_stringify opts t_call (cacheRef w) (JArr params) =
       ApiCallFull.Valid false)).
  { destruct (live_or_not opts t_call (cacheRef w)) as [Hlive | Hdead].
    - destruct (Hser Hlive) as ((a & Hpa) & (b & Hpb)).
      rewrite (check_live opts t_call (cacheRef w) (JArr params) Hc Hlive), Hpa, Hpb.
      destruct (String.eqb_spec a b) as [-> | Hne].
      + left. split; [| reflexivity]. split; [exact Hlive |]. exists b. auto.
      + right. split; [| reflexivity].
        intros (_ & a' & Ha1 & Ha2). rewrite Hpa in Ha1. rewrite Hpb in Ha2.
        congruence.
    - right. split; [intros (Hlive & _); contradiction |].
      apply check_dead. exact Hdead. }
  destruct Hcases as [(Hserve & Hv) | (Hno & Hv)].
  - destruct (execute_served_entry opts cb isAuthenticated apiFunction params t_call t_done w
                Ha Hv) as (H1 & H2 & H3 & H4).
    fold r in H1, H2, H3, H4.
    split; [| split].
    + split; [intros Hinv; lia | intros Hcontra; contradiction].
    + intros _. auto.
    + intros t Ht Hold. destruct Hserve as ((t' & Ht' & _ & _ & Hage) & _).
      rewrite Ht in Ht'. injection Ht' as <-. lia.
  - destruct (execute_miss opts cb isAuthenticated apiFunction params t_call t_done w
                Ha Hv) as (H1 & H2).
    fold r in H1, H2.
    split; [| split].
    + split; auto.
    + intros Hserve. contradiction.
    + intros; auto.
Qed.

(** When the entry is live and [JSON.stringify] throws on the requested
    params, or on the stored ones, the error leaves [execute] before its
    [try]: the promise rejects with it, the operation is not called, the
    cached data is not served and no state changes. *)
Lemma execute_rejects_when_stringify_throws
    opts cb isAuthenticated apiFunction params t_call t_done w e :
  cache opts = true ->
  auth_passes isAuthenticated apiFunction ->
  ApiCallFull.entry_live opts t_call (cacheRef w) ->
  (JSON_stringify (JArr params) = ApiCallFull.Throws e \/
   exists a, JSON_stringify (JArr params) = ApiCallFull.Text a /\
             JSON_stringify (entry_params (cacheRef w)) = ApiCallFull.Throws e) ->
  ApiCallFull.execute JSON_stringify opts cb isAuthenticated apiFunction params
    t_call t_done w = (w, Thrown e).
Proof.
  intros Hc Ha Hlive Hthrow. unfold auth_passes in Ha.
  unfold ApiCallFull.execute. rewrite Ha.
  rewrite (check_live opts t_call (cacheRef w) (JArr params) Hc Hlive).
  destruct Hthrow as [Hp | (a & Hp & Hq)].
  - rewrite Hp. reflexivity.
  - rewrite Hp, Hq. reflexivity.
Qed.

End WithSerializer.

(** With a serializer that throws on nothing and callbacks that return,
    the two models of [execute] are the same function. *)
Lemma execute_agrees (text : JsVal -> string)
    opts isAuthenticated apiFunction params t_call t_done w :
  ApiCallFull.execute (fun v => ApiCallFull.Text (text v)) opts ApiCallFull.returning
    isAuthenticated apiFunction params t_call t_done w =
  ApiCall.execute text opts isAuthenticated apiFunction params t_call t_done w.
Proof.
  unfold ApiCallFull.execute, ApiCall.execute, ApiCallFull.catch_block,
    ApiCallFull.isCacheValid, ApiCall.isCacheValid.
  destruct (requiresAuth apiFunction && negb isAuthenticated).
  - destruct (onError opts); reflexivity.
  - destruct (negb (cache opts)) eqn:Hc;
      [| destruct (negb (timestamp_truthy (timestamp (cacheRef w)))
                   || negb (truthy (entry_data (cacheRef w))));
         [| destruct (age t_call (timestamp (cacheRef w)) >? cacheTime opts);
            [| destruct (String.eqb (text (JArr params))
                           (text (entry_params (cacheRef w)))); [reflexivity |] ] ] ];
      destruct (call apiFunction params) as [result | err];
      destruct (cache opts), (onSuccess opts), (onError opts); reflexivity.
Qed.

Lemma execute_calls_unless_served_witness :
  let w := ApiCallFull.after_first_call (JStr "ok") in
  let params := [JObj [("id", JNum 1)]] in
  let r := ApiCallFull.execute ApiCallFull.serialize (caching 5000)
             ApiCallFull.returning true (answers (JStr "new")) params 5000 5010 w in
  cache (caching 5000) = true /\
  auth_passes true (answers (JStr "new")) /\
  ApiCallFull.serializes ApiCallFull.serialize (caching 5000) 5000 (cacheRef w)
    (JArr params) /\
  ApiCallFull.entry_serves ApiCallFull.serialize (caching 5000) 5000 (cacheRef w)
    (JArr params) /\
  snd r = Returned (JStr "ok") /\
  invocations (log (fst r)) = invocations (log w).
Proof.
  intros w params r.
  assert (Hser : ApiCallFull.serializes ApiCallFull.serialize (caching 5000) 5000
                   (cacheRef w) (JArr params)).
  { intros _. split; eexists; reflexivity. }
  assert (Hserve : ApiCallFull.entry_serves ApiCallFull.serialize (caching 5000) 5000
                     (cacheRef w) (JArr params)).
  { split.
    - exists 1010. vm_compute. repeat split; discriminate.
    - eexists. split; reflexivity. }
  destruct (execute_calls_unless_served ApiCallFull.serialize (caching 5000)
              ApiCallFull.returning true (answers (JStr "new")) params 5000 5010 w
              eq_refl eq_refl Hser) as (_ & Hhit & _).
  destruct (Hhit Hserve) as (H1 & _ & _ & H4).
  split; [reflexivity | split; [reflexivity | split; [exact Hser |]]].
  split; [exact Hserve | split; [exact H1 | exact H4]].
Defined.

(** C1 as stated fails: a first call whose operation resolved with the
    empty string (what the REST client returns for an empty text body)
    leaves an entry with the same params, 990 ms old with a cacheTime of
    5000 ms, and the second call still calls the operation. *)
Lemma falsy_result_is_not_served :
  let w := ApiCallFull.after_first_call (JStr EmptyString) in
  let params := [JObj [("id", JNum 1)]] in
  let r := ApiCallFull.execute ApiCallFull.serialize (caching 5000)
             ApiCallFull.returning true (answers (JStr EmptyString))
             params 2000 2010 w in
  ~ (invocations (log (fst r)) = S (invocations (log w)) <->
     ~ ApiCallFull.entry_matches ApiCallFull.serialize (caching 5000) 2000
         (cacheRef w) (JArr params)).
Proof.
  intros w params r [Hinv _]. apply Hinv.
  - vm_compute. reflexivity.
  - exists 1010. eexists. vm_compute. repeat split; discriminate.
Qed.

End CacheCheck.

Module CallbackOrder.
Import ApiCall.




End CallbackOrder.

(** * Where the hooks miss what they set out to do *)

Module Slips.

(** C2 fails on the code at a refresh over accumulated items: after two
    pages of ten (total 25, [hasMore] true) [refresh] replaces the items
    by the ten of the first page, but [hasMore] is computed from the
    twenty items of the calling render plus the ten received, 30 < 25,
    and becomes false although the accumulated length, 10, is below the
    total; [loadMore] then does nothing. *)
Lemma refresh_over_items_miscounts_hasMore :
  let api := InfiniteScroll.backend (InfiniteScroll.catalogue 25) true in
  let before := InfiniteScroll.after_pages 2 in
  let r := InfiniteScroll.call
             (InfiniteScroll.refresh InfiniteScroll.default_options api) before in
  let w := fst r in
  (InfiniteScroll.len (InfiniteScroll.items before) = 20 /\
   InfiniteScroll.hasMore before = true /\ InfiniteScroll.loading before = false) /\
  api (InfiniteScroll.build_params InfiniteScroll.default_options 1) =
    InfiniteScroll.PageResolved
      (InfiniteScroll.RespObject (Some (InfiniteScroll.catalogue 10)) None None
         (Some 25) None None) /\
  snd r = Returned (JArr (InfiniteScroll.catalogue 10)) /\
  InfiniteScroll.items w = InfiniteScroll.catalogue 10 /\
  InfiniteScroll.len (InfiniteScroll.items w) = 10 /\
  InfiniteScroll.hasMore w = false /\
  InfiniteScroll.hasMore w <> (InfiniteScroll.len (InfiniteScroll.items w) <? 25) /\
  InfiniteScroll.call
    (InfiniteScroll.loadMore InfiniteScroll.default_options api) w =
    (w, Returned JUndefined).
Proof.
  vm_compute. repeat split; discriminate.
Qed.

(** C6 fails on the code after two calls of [startPolling] within one
    render.  A Poller with [stopOnError] is mounted without [immediate];
    [startPolling] is called twice from the first render, in which
    [isPolling] is false, and starts timers 0 and 1; the effect of the
    next render releases timer 1 and starts timer 2.  A tick whose
    operation fails then sets [isPolling] false and releases timer 2, the
    one in [timerRef]; timer 0 stays live, and when it fires the
    operation is called again. *)
Lemma leaked_timer_ticks_after_failing_tick :
  let cfg := Polling.polling false true in
  let w0 := fst (Polling.mount cfg) in
  let w1 := fst (Polling.startPolling cfg (Polling.isPolling w0) w0) in
  let w2 := fst (Polling.startPolling cfg (Polling.isPolling w0) w1) in
  let w3 := fst (Polling.effect cfg (Polling.isPolling w2) (Polling.cleanup w2)) in
  let w4 := fst (Polling.executePoll cfg (Rejected (JError "down")) w3) in
  let w5 := fst (Polling.executePoll_begin cfg w4) in
  Polling.stopOnError cfg = true /\
  Polling.isPolling w0 = false /\
  (Polling.timers w3 = [2%nat; 0%nat] /\ Polling.timerRef w3 = Some 2%nat) /\
  (Polling.isPolling w4 = false /\ Polling.timerRef w4 = None /\
   Polling.error w4 = JError "down" /\ Polling.timers w4 = [0%nat]) /\
  Polling.step cfg w4 w5 /\
  Polling.activity (Polling.log w5) =
    Polling.activity (Polling.log w4) ++ [Polling.Poll; Polling.Invoke].
Proof.
  intros cfg w0 w1 w2 w3 w4 w5.
  split; [reflexivity | split; [reflexivity | split; [split; reflexivity |]]].
  split; [repeat split; reflexivity |].
  split; [| reflexivity].
  apply (Polling.step_tick cfg w4 0%nat). left. reflexivity.
Qed.

End Slips.

Module RefreshAgain.
Import InfiniteScroll InfiniteScrollFacts RefreshFacts.



End RefreshAgain.
